(** * update_news.py: merge, DOI extraction, rendering and patching

    A shallow embedding of [scripts/update_news.py] and the properties of
    its merge/deduplication pipeline.

    Python [str] values are modelled as lists of code points restricted to
    the range 0..255 (one [ascii] per code point); the character classes
    [\d], [\s], [\w] and [str.lower] follow Python's Unicode tables on that
    range.  Python sets of strings are [gset str]. *)

From Stdlib Require Import Ascii String ZArith DecimalString Permutation Sorted.
From stdpp Require Import base gmap sets list strings.

Local Open Scope char_scope.
Local Open Scope list_scope.

(** ** Strings *)

Definition str := list ascii.

(** A Python string literal. *)
Definition py (s : string) : str := list_ascii_of_string s.

Definition code (c : ascii) : N := N_of_ascii c.

Definition in_range (lo hi : N) (c : ascii) : bool :=
  (lo <=? code c)%N && (code c <=? hi)%N.

(** [\d]: decimal digits (category Nd). *)
Definition is_digit (c : ascii) : bool := in_range 48 57 c.

(** [\s] and [str.isspace]. *)
Definition is_space (c : ascii) : bool :=
  in_range 9 13 c || in_range 28 32 c || (code c =? 133)%N || (code c =? 160)%N.

(** [\w]: alphanumeric code points and the underscore. *)
Definition is_word (c : ascii) : bool :=
  in_range 48 57 c || in_range 65 90 c || (code c =? 95)%N || in_range 97 122 c
  || (code c =? 170)%N || in_range 178 179 c || (code c =? 181)%N
  || in_range 185 186 c || in_range 188 190 c || in_range 192 214 c
  || in_range 216 246 c || in_range 248 255 c.

Definition lower_char (c : ascii) : ascii :=
  if in_range 65 90 c || in_range 192 214 c || in_range 216 222 c
  then ascii_of_N (code c + 32) else c.

(** [s.lower()], on code points 0..255: there it acts character by
    character and keeps the length, which it does not on all of
    Unicode. *)
Definition lower (s : str) : str := map lower_char s.

(** [s.rstrip(c)] for a one-character argument, and [lstrip]. *)
Fixpoint lstrip_by (p : ascii -> bool) (s : str) : str :=
  match s with
  | c :: s' => if p c then lstrip_by p s' else s
  | [] => []
  end.

Definition rstrip_by (p : ascii -> bool) (s : str) : str :=
  rev (lstrip_by p (rev s)).

Definition rstrip (c : ascii) (s : str) : str := rstrip_by (Ascii.eqb c) s.

(** [s.strip()] *)
Definition strip (s : str) : str := rstrip_by is_space (lstrip_by is_space s).

(** [s.split(c)] for a one-character separator. *)
Fixpoint split (sep : ascii) (s : str) : list str :=
  match s with
  | [] => [[]]
  | c :: s' =>
      if Ascii.eqb c sep then [] :: split sep s'
      else match split sep s' with
           | w :: ws => (c :: w) :: ws
           | [] => [[c]]
           end
  end.

(** [sep.join(parts)] *)
Fixpoint join (sep : str) (parts : list str) : str :=
  match parts with
  | [] => []
  | [w] => w
  | w :: ws => w ++ sep ++ join sep ws
  end.

(** String comparison by code points, as Python's [<] on [str]. *)
Fixpoint str_compare (a b : str) : comparison :=
  match a, b with
  | [], [] => Eq
  | [], _ :: _ => Lt
  | _ :: _, [] => Gt
  | x :: a', y :: b' =>
      match (code x ?= code y)%N with
      | Eq => str_compare a' b'
      | o => o
      end
  end.

Definition str_ltb (a b : str) : bool :=
  match str_compare a b with Lt => true | _ => false end.

(** [str(n)] for an integer. *)
Definition str_of_Z (z : Z) : str :=
  py (NilZero.string_of_int (Z.to_int z)).

(** The double quote character. *)
Definition dquote : ascii := "034".

(** Python truthiness of an optional string: [None] and the empty string
    are falsy. *)
Definition truthy (o : option str) : bool :=
  match o with
  | Some (_ :: _) => true
  | _ => false
  end.

(** ** The fragment of [re] used by the script

    A pattern is a sequence of items: a character class with a counted
    repetition (greedy or lazy), the anchor [$], and the two ends of the
    capturing group.  Matching is by backtracking, leftmost first. *)

Module Re.

Inductive quant := Greedy | Lazy.

Inductive item :=
| Chars (cls : ascii -> bool) (lo : nat) (hi : option nat) (q : quant)
| Eos
| GroupOpen
| GroupClose.

Definition regex := list item.

Definition chr (c : ascii) : item := Chars (Ascii.eqb c) 1 (Some 1) Greedy.

(** [re.escape(s)]: the pattern that matches [s] literally. *)
Definition escape (s : str) : regex := map chr s.

(** A literal written out in a pattern (with its dots escaped). *)
Definition lit (s : string) : regex := escape (py s).

Definition plus (cls : ascii -> bool) : item := Chars cls 1 None Greedy.

Definition any (c : ascii) : bool := true.

(** Capture state: where the open group started, and the closed group. *)
Record caps := { g_open : option str; g_text : option str }.

Definition no_caps : caps := {| g_open := None; g_text := None |}.

(** The text consumed between [start] and its suffix [cur]. *)
Definition consumed (start cur : str) : str :=
  take (length start - length cur) start.

Definition open_group (st : caps) (s : str) : caps :=
  {| g_open := Some s; g_text := g_text st |}.

Definition close_group (st : caps) (s : str) : caps :=
  {| g_open := None;
     g_text := match g_open st with
               | Some start => Some (consumed start s)
               | None => g_text st
               end |}.

Definition room (hi : option nat) : bool :=
  match hi with Some 0 => false | _ => true end.

Definition less (hi : option nat) : option nat :=
  match hi with Some n => Some (pred n) | None => None end.

Section Rep.
Context {R : Type} (cls : ascii -> bool) (q : quant) (k : str -> option R).

(** [cls{lo,hi}] followed by the continuation [k]. *)
Fixpoint rep (lo : nat) (hi : option nat) (s : str) {struct s} : option R :=
  let stop := match lo with 0 => k s | S _ => None end in
  match s with
  | c :: s' =>
      if cls c && room hi then
        match q with
        | Greedy =>
            match rep (pred lo) (less hi) s' with
            | Some r => Some r
            | None => stop
            end
        | Lazy =>
            match stop with
            | Some r => Some r
            | None => rep (pred lo) (less hi) s'
            end
        end
      else stop
  | [] => stop
  end.
End Rep.

(** [$] without [re.MULTILINE]: the end, or just before a final newline. *)
Definition at_end (s : str) : bool :=
  match s with
  | [] => true
  | [c] => Ascii.eqb c "010"
  | _ => false
  end.

(** Match [r] at the start of [s]; the result is the capture state and
    the unconsumed rest. *)
Fixpoint match_items (r : regex) (st : caps) (s : str) : option (caps * str) :=
  match r with
  | [] => Some (st, s)
  | Chars cls lo hi q :: r' => rep cls q (match_items r' st) lo hi s
  | Eos :: r' => if at_end s then match_items r' st s else None
  | GroupOpen :: r' => match_items r' (open_group st s) s
  | GroupClose :: r' => match_items r' (close_group st s) s
  end.

(** A match object: [group(0)], [group(1)] and the text after the match. *)
Record rmatch := { m_text : str; m_group1 : option str; m_rest : str }.

Definition match_at (r : regex) (s : str) : option rmatch :=
  match match_items r no_caps s with
  | Some (st, rest) =>
      Some {| m_text := consumed s rest; m_group1 := g_text st; m_rest := rest |}
  | None => None
  end.

(** [re.search]: the match at the leftmost position that has one. *)
Fixpoint search (r : regex) (s : str) : option rmatch :=
  match match_at r s with
  | Some m => Some m
  | None => match s with
            | [] => None
            | _ :: s' => search r s'
            end
  end.

(** Scanning for successive non-overlapping matches.  [skip] counts the
    characters of the current match still to be passed over.  Every
    pattern of the script starts with a literal, so a match is never
    empty and the engine's rule for empty matches is not needed. *)
Fixpoint finditer_from (r : regex) (skip : nat) (s : str) : list rmatch :=
  match skip with
  | S n => match s with
           | [] => []
           | _ :: s' => finditer_from r n s'
           end
  | 0 =>
      match match_at r s with
      | Some m =>
          m :: match s with
               | [] => []
               | _ :: s' => finditer_from r (pred (length (m_text m))) s'
               end
      | None => match s with
                | [] => []
                | _ :: s' => finditer_from r 0 s'
                end
      end
  end.

(** [re.finditer] *)
Definition finditer (r : regex) (s : str) : list rmatch := finditer_from r 0 s.

(** [re.sub] with the replacement computed from each match. *)
Fixpoint sub_from (r : regex) (f : rmatch -> str) (skip : nat) (s : str) : str :=
  match skip with
  | S n => match s with
           | [] => []
           | _ :: s' => sub_from r f n s'
           end
  | 0 =>
      match match_at r s with
      | Some m =>
          f m ++ match s with
                 | [] => []
                 | c :: s' =>
                     match length (m_text m) with
                     | 0 => c :: sub_from r f 0 s'
                     | S n => sub_from r f n s'
                     end
                 end
      | None => match s with
                | [] => []
                | c :: s' => c :: sub_from r f 0 s'
                end
      end
  end.

Definition sub_with (r : regex) (f : rmatch -> str) (s : str) : str :=
  sub_from r f 0 s.

End Re.

(** ** Replacement templates of [re.sub]

    A replacement string without a backslash is inserted verbatim.
    Otherwise it is parsed: escapes are translated, [\g<n>] and [\n]
    refer to groups, and a bad escape or reference raises (group names
    follow the rule of Python 3.12: ASCII decimal digits only, the
    patterns of the script having no named group). *)

Module Template.

Inductive result (A : Type) := Ok (a : A) | Raise.
Arguments Ok {A} a.
Arguments Raise {A}.

Inductive piece := PLit (s : str) | PGroup (n : N).

Definition is_oct (c : ascii) : bool := in_range 48 55 c.
Definition is_ascii_letter (c : ascii) : bool := in_range 65 90 c || in_range 97 122 c.
Definition digit_val (c : ascii) : N := (code c - 48)%N.

(** [int(name)] for a name of ASCII decimal digits. *)
Definition int_of_digits (ds : str) : N :=
  fold_left (fun acc d => (10 * acc + digit_val d)%N) ds 0%N.

(** The non-group escapes of the table ESCAPES. *)
Definition escape_of (c : ascii) : option ascii :=
  if Ascii.eqb c "a" then Some "007"
  else if Ascii.eqb c "b" then Some "008"
  else if Ascii.eqb c "f" then Some "012"
  else if Ascii.eqb c "n" then Some "010"
  else if Ascii.eqb c "r" then Some "013"
  else if Ascii.eqb c "t" then Some "009"
  else if Ascii.eqb c "v" then Some "011"
  else if Ascii.eqb c "\" then Some "\"
  else None.

Definition emit (p : piece) (r : result (list piece)) : result (list piece) :=
  match r with Ok ps => Ok (p :: ps) | Raise => Raise end.

Definition addgroup (groups index : N) (r : result (list piece)) : result (list piece) :=
  if (index <=? groups)%N then emit (PGroup index) r else Raise.

(** [parse_template]; [name] holds the reversed group name while inside
    [\g<...>]. *)
Fixpoint parse_template (groups : N) (name : option str) (src : str)
  : result (list piece) :=
  match name with
  | Some acc =>
      match src with
      | [] => Raise
      | c :: rest =>
          if Ascii.eqb c ">" then
            match acc with
            | [] => Raise
            | _ :: _ =>
                if forallb is_digit acc
                then addgroup groups (int_of_digits (rev acc))
                       (parse_template groups None rest)
                else Raise
            end
          else if Ascii.eqb c "\" then
            match rest with
            | [] => Raise
            | d :: rest' => parse_template groups (Some (d :: c :: acc)) rest'
            end
          else parse_template groups (Some (c :: acc)) rest
      end
  | None =>
      match src with
      | [] => Ok []
      | c :: rest =>
          if Ascii.eqb c "\" then
            match rest with
            | [] => Raise
            | e :: rest1 =>
                if Ascii.eqb e "g" then
                  match rest1 with
                  | b :: rest2 =>
                      if Ascii.eqb b "<" then parse_template groups (Some []) rest2
                      else Raise
                  | [] => Raise
                  end
                else if Ascii.eqb e "0" then
                  match rest1 with
                  | a :: rest2 =>
                      if is_oct a then
                        match rest2 with
                        | b :: rest3 =>
                            if is_oct b then
                              emit (PLit [ascii_of_N (8 * digit_val a + digit_val b)])
                                (parse_template groups None rest3)
                            else emit (PLit [ascii_of_N (digit_val a)])
                                   (parse_template groups None rest2)
                        | [] => emit (PLit [ascii_of_N (digit_val a)])
                                  (parse_template groups None rest2)
                        end
                      else emit (PLit ["000"]) (parse_template groups None rest1)
                  | [] => emit (PLit ["000"]) (parse_template groups None rest1)
                  end
                else if is_digit e then
                  match rest1 with
                  | a :: rest2 =>
                      if is_digit a then
                        match rest2 with
                        | b :: rest3 =>
                            if is_oct e && is_oct a && is_oct b then
                              let v := (64 * digit_val e + 8 * digit_val a + digit_val b)%N in
                              if (255 <? v)%N then Raise
                              else emit (PLit [ascii_of_N v])
                                     (parse_template groups None rest3)
                            else addgroup groups (10 * digit_val e + digit_val a)
                                   (parse_template groups None rest2)
                        | [] => addgroup groups (10 * digit_val e + digit_val a)
                                  (parse_template groups None rest2)
                        end
                      else addgroup groups (digit_val e)
                             (parse_template groups None rest1)
                  | [] => addgroup groups (digit_val e)
                            (parse_template groups None rest1)
                  end
                else
                  match escape_of e with
                  | Some x => emit (PLit [x]) (parse_template groups None rest1)
                  | None =>
                      if is_ascii_letter e then Raise
                      else emit (PLit [c; e]) (parse_template groups None rest1)
                  end
            end
          else emit (PLit [c]) (parse_template groups None rest)
      end
  end.

(** [expand_template]: an unmatched group expands to the empty string. *)
Definition expand_piece (m : Re.rmatch) (p : piece) : str :=
  match p with
  | PLit s => s
  | PGroup 0 => Re.m_text m
  | PGroup _ => default [] (Re.m_group1 m)
  end.

Definition expand_template (t : list piece) (m : Re.rmatch) : str :=
  concat (map (expand_piece m) t).

Definition has_backslash (s : str) : bool := existsb (Ascii.eqb "\") s.

Definition is_group_open (i : Re.item) : bool :=
  match i with Re.GroupOpen => true | _ => false end.

Definition ngroups (r : Re.regex) : N :=
  N.of_nat (length (List.filter is_group_open r)).

(** Substitution of a replacement inserted verbatim. *)
Definition sub_literal (r : Re.regex) (repl : str) (s : str) : str :=
  Re.sub_with r (fun _ => repl) s.

(** [pattern.sub(repl, s)] for a string [repl]. *)
Definition re_sub (r : Re.regex) (repl : str) (s : str) : result str :=
  if has_backslash repl then
    match parse_template (ngroups r) None repl with
    | Ok t => Ok (Re.sub_with r (expand_template t) s)
    | Raise => Raise
    end
  else Ok (sub_literal r repl s).

End Template.

(** ** The script *)

Import Template.

Definition MARKER_START : str := py "<!-- NEWS_START -->".
Definition MARKER_END : str := py "<!-- NEWS_END -->".

(** A news item: a JSON object with string fields; [None] is a missing
    key (for [url] and [paper_id] also the value [null]). *)
Record NewsItem := {
  date : option str;
  text : option str;
  url : option str;
  link_text : option str;
  source : option str;
  paper_id : option str
}.

(** A paper record of the Semantic Scholar API.  For the fields that the
    script reads with a truth test, [None] is a missing key or the value
    [null].  The title is read with [.get] and the empty string as the
    default, then [.strip()], which tells the two apart: [None] is a
    missing key, [Some None] the value [null], [Some (Some s)] a
    string. *)
Module Paper.
Record ExternalIds := { DOI : option str; ArXiv : option str }.
Record t := {
  paperId : option str;
  title : option (option str);
  publicationDate : option str;
  year : option Z;
  externalIds : option ExternalIds;
  url : option str;
  venue : option str
}.
End Paper.

(** Truthiness of an optional integer: [None] and [0] are falsy. *)
Definition truthy_int (o : option Z) : bool :=
  match o with
  | Some z => negb (z =? 0)%Z
  | None => false
  end.

(** [paper_to_news_item]: the item, [Ok None] for the value [None], or
    the [AttributeError] raised by [.strip()] on a [null] title. *)
Definition paper_to_news_item (paper : Paper.t) : result (option NewsItem) :=
  match default (Some []) (Paper.title paper) with
  | None => Raise
  | Some title =>
  let title := strip title in
  if negb (truthy (Some title)) then Ok None
  else
    let pub_date := Paper.publicationDate paper in
    let year := Paper.year paper in
    let date_str :=
      if truthy pub_date then pub_date
      else if truthy_int year
           then Some (str_of_Z (default 0%Z year) ++ py "-01-01")
           else None in
    match date_str with
    | None => Ok None
    | Some date_str =>
        let ext_ids :=
          default {| Paper.DOI := None; Paper.ArXiv := None |}
                  (Paper.externalIds paper) in
        let doi := Paper.DOI ext_ids in
        let arxiv := Paper.ArXiv ext_ids in
        let url :=
          if truthy doi then Some (py "https://doi.org/" ++ default [] doi)
          else if truthy arxiv
               then Some (py "https://arxiv.org/abs/" ++ default [] arxiv)
               else Paper.url paper in
        let venue := Paper.venue paper in
        let text :=
          if truthy venue
          then py "Our paper " ++ [dquote] ++ title ++ [dquote]
               ++ py " published in " ++ default [] venue
          else py "Our paper " ++ [dquote] ++ title ++ [dquote]
               ++ py " is available" in
        Ok (Some {| date := Some date_str;
                    text := Some text;
                    url := url;
                    link_text := None;
                    source := Some (py "semantic_scholar");
                    paper_id := Paper.paperId paper |})
    end
  end.

(** [v\d+$] *)
Definition version_re : Re.regex := [Re.chr "v"; Re.plus is_digit; Re.Eos].

Definition normalize_doi (doi : str) : str :=
  let doi := rstrip "/" (lower doi) in
  sub_literal version_re [] doi.

Definition doi_char (c : ascii) : bool :=
  negb (is_space c || Ascii.eqb c "," || Ascii.eqb c ";").

(** [(10\.\d{4,9}/[^\s,;]+)] *)
Definition doi_re : Re.regex :=
  [Re.GroupOpen] ++ Re.lit "10."
  ++ [Re.Chars is_digit 4 (Some 9) Re.Greedy; Re.chr "/"; Re.plus doi_char;
      Re.GroupClose].

(** The class [[\w.-]]. *)
Definition nature_char (c : ascii) : bool :=
  is_word c || Ascii.eqb c "." || Ascii.eqb c "-".

(** [nature\.com/articles/(s[\w.-]+)] *)
Definition nature_re : Re.regex :=
  Re.lit "nature.com/articles/"
  ++ [Re.GroupOpen; Re.chr "s"; Re.plus nature_char; Re.GroupClose].

(** The class [[\d.]]. *)
Definition arxiv_char (c : ascii) : bool := is_digit c || Ascii.eqb c ".".

(** [arxiv\.org/abs/([\d.]+)] *)
Definition arxiv_re : Re.regex :=
  Re.lit "arxiv.org/abs/" ++ [Re.GroupOpen; Re.plus arxiv_char; Re.GroupClose].

(** [m.group(1)] *)
Definition group1 (m : Re.rmatch) : str := default [] (Re.m_group1 m).

(** The inner loop of [extract_dois]: the progressively shorter
    versions [parts[:i]] for [i] in [range(2, len(parts))]. *)
Definition add_prefixes (normalized : str) (dois : gset str) : gset str :=
  let parts := split "/" normalized in
  fold_left (fun dois i => dois ∪ {[ join ["/"] (take i parts) ]})
            (seq 2 (length parts - 2)) dois.

Definition extract_dois (url : str) : gset str :=
  if negb (truthy (Some url)) then ∅
  else
    let dois :=
      fold_left
        (fun dois m =>
           let raw := group1 m in
           let normalized := normalize_doi raw in
           add_prefixes normalized (dois ∪ {[ normalized ]}))
        (Re.finditer doi_re url) ∅ in
    let dois :=
      match Re.search nature_re url with
      | Some m => dois ∪ {[ normalize_doi (py "10.1038/" ++ group1 m) ]}
      | None => dois
      end in
    match Re.search arxiv_re url with
    | Some m => dois ∪ {[ py "10.48550/arxiv." ++ group1 m ]}
    | None => dois
    end.

Definition doi_overlap (dois_a dois_b : gset str) : bool :=
  bool_decide (dois_a ∩ dois_b ≠ ∅).

(** [item.get] of the key [url], the empty string by default. *)
Definition get_url (item : NewsItem) : str := default [] (url item).

(** The sort key: [x.get] of the key [date], the empty string by default. *)
Definition date_key (item : NewsItem) : str := default [] (date item).

(** [l.sort(key=key, reverse=True)]: a stable sort, largest key first;
    items with equal keys keep their relative order. *)
Section Sort.
Context {A : Type} (key : A -> str).

Fixpoint insert_desc (x : A) (l : list A) : list A :=
  match l with
  | [] => [x]
  | y :: l' =>
      if str_ltb (key x) (key y) then y :: insert_desc x l' else x :: l
  end.

Definition sort_desc (l : list A) : list A := foldr insert_desc [] l.
End Sort.

(** The tracking sets of [merge_news]. *)
Record seen := { existing_urls : gset str; existing_dois : gset str }.

(** The first loop, over the manual items: one iteration, and the loop. *)
Definition seed_step (sn : seen) (item : NewsItem) : seen :=
  let url := get_url item in
  if truthy (Some url)
  then {| existing_urls := existing_urls sn ∪ {[ rstrip "/" url ]};
          existing_dois := existing_dois sn ∪ extract_dois url |}
  else sn.

Definition seed (manual : list NewsItem) : seen :=
  fold_left seed_step manual {| existing_urls := ∅; existing_dois := ∅ |}.

(** The state of the second loop, and one iteration of it. *)
Record acc := { merged : list NewsItem; tracked : seen; new_count : nat }.

Definition merge_step (a : acc) (item : NewsItem) : acc :=
  let url := get_url item in
  if negb (truthy (Some url)) then a
  else
    let normalized := rstrip "/" url in
    let item_dois := extract_dois url in
    if bool_decide (normalized ∈ existing_urls (tracked a)) then a
    else if doi_overlap item_dois (existing_dois (tracked a)) then a
    else {| merged := merged a ++ [item];
            tracked := {| existing_urls := existing_urls (tracked a) ∪ {[ normalized ]};
                          existing_dois := existing_dois (tracked a) ∪ item_dois |};
            new_count := S (new_count a) |}.

Definition merge_loop (manual auto : list NewsItem) : acc :=
  fold_left merge_step auto
    {| merged := manual; tracked := seed manual; new_count := 0 |}.

Definition str_of_nat (n : nat) : str := str_of_Z (Z.of_nat n).

(** [merge_news]: the merged list, and the lines printed. *)
Definition merge_news (manual auto : list NewsItem) : list NewsItem * list str :=
  let a := merge_loop manual auto in
  (sort_desc date_key (merged a),
   if (0 <? new_count a)%nat
   then [py "Found " ++ str_of_nat (new_count a)
         ++ py " new publication(s) from Semantic Scholar"]
   else []).

Definition render_item (item : NewsItem) : str :=
  let date := default [] (date item) in
  let text := default [] (text item) in
  let url := url item in
  let link_text := default (py "here") (link_text item) in
  if truthy url then
    let link := py " <a href=" ++ [dquote] ++ default [] url ++ [dquote]
                ++ py "> " ++ link_text ++ py " </a>." in
    py "                        <li>" ++ ["010"]
    ++ py "                            <strong>" ++ date ++ py "</strong> - "
    ++ text ++ link ++ ["010"] ++ py "                        </li>"
  else
    py "                        <li>" ++ ["010"]
    ++ py "                            <strong>" ++ date ++ py "</strong> - "
    ++ text ++ ["010"] ++ py "                        </li>".

Definition render_news_html (items : list NewsItem) : str :=
  let lines :=
    [py "                <!-- NEWS_START -->";
     py "                <div class=" ++ [dquote] ++ py "news" ++ [dquote] ++ py ">";
     py "                    <h2>News</h2>";
     py "                    <ul>"]
    ++ map render_item items
    ++ [py "                    </ul>";
        py "                </div>";
        py "                <!-- NEWS_END -->"] in
  join ["010"] lines.

(** The files and the terminal, as far as [update_index_html] uses them. *)
Record world := { index_html : str; stdout : list str }.

Definition print (line : str) (w : world) : world :=
  {| index_html := index_html w; stdout := stdout w ++ [line] |}.

Definition write_index (content : str) (w : world) : world :=
  {| index_html := content; stdout := stdout w |}.

(** [re.escape(MARKER_START) + r".*?" + re.escape(MARKER_END)], with
    [re.DOTALL]. *)
Definition marker_re : Re.regex :=
  Re.escape MARKER_START ++ [Re.Chars Re.any 0 None Re.Lazy] ++ Re.escape MARKER_END.

(** [update_index_html]: the value returned (or the exception raised by
    [pattern.sub]) and the world afterwards. *)
Definition update_index_html (news_html : str) (w : world) : result bool * world :=
  let content := index_html w in
  match Re.search marker_re content with
  | None =>
      (Ok false,
       print (py "Error: Could not find NEWS_START/NEWS_END markers in index.html") w)
  | Some _ =>
      match re_sub marker_re news_html content with
      | Raise => (Raise, w)
      | Ok new_content =>
          if bool_decide (new_content = content)
          then (Ok false, print (py "No changes to index.html") w)
          else (Ok true, print (py "Updated index.html") (write_index new_content w))
      end
  end.

(** ** Fetching, loading and the main program

    The network is a function from the request URL to what the request
    gives: the decoded JSON document, a [URLError], or another
    exception.  The file data/news.json is modelled by the list it holds
    ([None] when the file does not exist): [json.dumps] followed by
    [json.loads] gives the list back. *)

Definition AUTHOR_IDS : list str :=
  [py "2275825472"; py "1944920685"; py "2127367730"; py "2283043684"].

Definition S2_API : str := py "https://api.semanticscholar.org/graph/v1".

Inductive response :=
| Data (papers : option (list Paper.t))
| UrlError (e : str)
| OtherError.

(** The request URL for an author. *)
Definition papers_url (author_id : str) : str :=
  S2_API ++ py "/author/" ++ author_id ++ py "/papers?fields="
  ++ py "title,publicationDate,year,externalIds,url,venue" ++ py "&limit=100".

(** The dictionary [papers], in insertion order. *)
Definition paper_dict := list (str * Paper.t).

(** The body of the inner loop: [if pid and pid not in papers]. *)
Definition add_paper (papers : paper_dict) (paper : Paper.t) : paper_dict :=
  let pid := Paper.paperId paper in
  if truthy pid && negb (bool_decide (default [] pid ∈ map fst papers))
  then papers ++ [(default [] pid, paper)]
  else papers.

Definition fetch_warning (author_id e : str) : str :=
  py "Warning: Failed to fetch papers for author " ++ author_id ++ py ": " ++ e.

(** The loop over the author IDs: the dictionary (or the exception that
    escapes) and the lines printed. *)
Fixpoint fetch_loop (urlopen : str -> response) (ids : list str)
    (papers : paper_dict) (out : list str) : result paper_dict * list str :=
  match ids with
  | [] => (Ok papers, out)
  | author_id :: ids' =>
      match urlopen (papers_url author_id) with
      | Data data =>
          fetch_loop urlopen ids' (fold_left add_paper (default [] data) papers) out
      | UrlError e =>
          fetch_loop urlopen ids' papers (out ++ [fetch_warning author_id e])
      | OtherError => (Raise, out)
      end
  end.

Definition fetch_papers (urlopen : str -> response)
  : result (list Paper.t) * list str :=
  match fetch_loop urlopen AUTHOR_IDS [] [] with
  | (Ok papers, out) => (Ok (map snd papers), out)
  | (Raise, out) => (Raise, out)
  end.

(** The files and the terminal of the whole program. *)
Record machine := { news_json : option (list NewsItem); site : world }.

Definition say (line : str) (m : machine) : machine :=
  {| news_json := news_json m; site := print line (site m) |}.

Definition say_all (ls : list str) (m : machine) : machine :=
  fold_left (fun m line => say line m) ls m.

(** [load_news]: the stored list, or the empty list without the file. *)
Definition load_news (m : machine) : list NewsItem := default [] (news_json m).

(** The loop of [main] that maps the papers to news items; an exception
    of [paper_to_news_item] escapes it. *)
Fixpoint auto_items_of (papers : list Paper.t) : result (list NewsItem) :=
  match papers with
  | [] => Ok []
  | paper :: papers' =>
      match paper_to_news_item paper with
      | Raise => Raise
      | Ok item =>
          match auto_items_of papers' with
          | Raise => Raise
          | Ok auto_items =>
              Ok (match item with
                  | Some item => item :: auto_items
                  | None => auto_items
                  end)
          end
      end
  end.

(** [main]; [news_json_path] is the path of data/news.json as printed. *)
Definition main (news_json_path : str) (argv : list str)
    (urlopen : str -> response) (m : machine) : result unit * machine :=
  let dry_run := bool_decide (py "--dry-run" ∈ argv) in
  let m := say (py "Loading manual news entries...") m in
  let manual := load_news m in
  let m := say (py "  " ++ str_of_nat (length manual) ++ py " manual entries") m in
  let m := say (py "Fetching publications from Semantic Scholar...") m in
  match fetch_papers urlopen with
  | (Raise, out) => (Raise, say_all out m)
  | (Ok papers, out) =>
      let m := say_all out m in
      let m := say (py "  " ++ str_of_nat (length papers) ++ py " papers found") m in
      match auto_items_of papers with
      | Raise => (Raise, m)
      | Ok auto_items =>
      let m := say (py "Merging news items...") m in
      let (merged, lines) := merge_news manual auto_items in
      let m := say_all lines m in
      let m := say (py "  " ++ str_of_nat (length merged) ++ py " total entries") m in
      let m :=
        if dry_run then m
        else say (py "Saved " ++ news_json_path)
               {| news_json := Some merged; site := site m |} in
      let news_html := render_news_html merged in
      if dry_run then
        (Ok tt, say news_html
                  (say ("010" :: py "--- Generated HTML (dry run) ---") m))
      else
        match update_index_html news_html (site m) with
        | (Raise, w) => (Raise, {| news_json := news_json m; site := w |})
        | (Ok changed, w) =>
            let m := {| news_json := news_json m; site := w |} in
            (Ok tt,
             say (if changed
                  then py "Done! index.html updated with latest news."
                  else py "Done! No changes needed.") m)
        end
      end
  end.

(** * Specification vocabulary *)

(** ** Strings and lines *)

(** [needle] occurs in [hay]. *)
Definition contains (needle hay : str) : Prop :=
  exists pre post, hay = pre ++ needle ++ post.

(** The lines of a text, cut at the newline characters. *)
Definition lines (s : str) : list str := split "010" s.

(** ** The renderer *)

Definition first_line_html : str := py "                <!-- NEWS_START -->".
Definition last_line_html : str := py "                <!-- NEWS_END -->".

(** ** The record mapper *)

(** The title is [null]. *)
Definition null_title (p : Paper.t) : Prop := Paper.title p = Some None.

(** The title is usable: a string that is not empty once trimmed. *)
Definition usable_title (p : Paper.t) : Prop :=
  exists t, Paper.title p = Some (Some t) /\ strip t <> [].

(** The record has a publication date (a non-empty string) or a year (an
    integer other than zero): what Python's truth test accepts. *)
Definition has_pub_date (p : Paper.t) : Prop :=
  exists d, Paper.publicationDate p = Some d /\ d <> [].

Definition has_year (p : Paper.t) : Prop :=
  exists y, Paper.year p = Some y /\ y <> 0%Z.

Definition sample_paper : Paper.t :=
  {| Paper.paperId := Some (py "p1");
     Paper.title := Some (Some (py " A title "));
     Paper.publicationDate := None;
     Paper.year := Some 2024%Z;
     Paper.externalIds := None;
     Paper.url := None;
     Paper.venue := None |}.

(** The record [{"paperId": "p2", "title": null, "year": 2024}]. *)
Definition null_title_paper : Paper.t :=
  {| Paper.paperId := Some (py "p2");
     Paper.title := Some None;
     Paper.publicationDate := None;
     Paper.year := Some 2024%Z;
     Paper.externalIds := None;
     Paper.url := None;
     Paper.venue := None |}.

(** ** String order and the stable sort *)

(** Descending order of the keys: no item is smaller than a later one. *)
Definition key_ge {A : Type} (key : A -> str) (a b : A) : Prop :=
  str_ltb (key a) (key b) = false.

(** ** The merger *)

(** The URL of an item trimmed of trailing slashes, and its DOI set. *)
Definition trimmed (item : NewsItem) : str := rstrip "/" (get_url item).
Definition dois_of (item : NewsItem) : gset str := extract_dois (get_url item).

(** The item has a URL: the key is present with a non-empty string. *)
Definition has_url (item : NewsItem) : Prop := get_url item <> [].

(** What the tracking sets hold once the items of [l] are recorded. *)
Definition tracks (sn : seen) (l : list NewsItem) : Prop :=
  (forall u, u ∈ existing_urls sn
             <-> exists x, x ∈ l /\ has_url x /\ trimmed x = u)
  /\ (forall d, d ∈ existing_dois sn <-> exists x, x ∈ l /\ d ∈ dois_of x).

(** [item] duplicates nothing in [earlier]: no item there that has a URL
    shares its trimmed URL, and no item there shares a DOI with it. *)
Definition fresh (earlier : list NewsItem) (item : NewsItem) : Prop :=
  (forall x, x ∈ earlier -> has_url x -> trimmed x <> trimmed item)
  /\ (forall x, x ∈ earlier -> dois_of x ## dois_of item).

(** The auto items accepted after the manual ones, each fresh with
    respect to everything before it. *)
Inductive accepted (manual : list NewsItem) : list NewsItem -> Prop :=
| accepted_nil : accepted manual []
| accepted_snoc kept item :
    accepted manual kept -> has_url item -> fresh (manual ++ kept) item ->
    accepted manual (kept ++ [item]).

(** The loop invariant of [merge_news]. *)
Record merge_inv (manual kept : list NewsItem) (a : acc) : Prop := {
  inv_merged : merged a = manual ++ kept;
  inv_tracked : tracks (tracked a) (manual ++ kept);
  inv_accepted : accepted manual kept;
  inv_count : new_count a = length kept
}.

(** The claim of C1 as it is written: no two items of the list have the
    same trimmed URL, and no two have DOI sets that intersect. *)
Definition no_duplicates (l : list NewsItem) : Prop :=
  forall i j x y,
    i <> j -> l !! i = Some x -> l !! j = Some y ->
    (has_url x -> has_url y -> trimmed x <> trimmed y)
    /\ dois_of x ## dois_of y.

Definition item_with_url (d u : string) : NewsItem :=
  {| date := Some (py d); text := Some (py "news"); url := Some (py u);
     link_text := None; source := None; paper_id := None |}.

Definition nature_doi_item : NewsItem :=
  item_with_url "2024-01-01" "https://doi.org/10.1038/s41586-1".

(** ** The matcher *)

(** A repetition count allowed by the upper bound. *)
Definition within (hi : option nat) (n : nat) : Prop :=
  match hi with Some h => (n <= h)%nat | None => True end.

(** Every character of the string is in the class. *)
Definition all (cls : ascii -> bool) (m : str) : Prop :=
  Forall (fun c => cls c = true) m.

(** [strip_prefix w s] removes the literal [w] from the start of [s]. *)
Fixpoint strip_prefix (w s : str) : option str :=
  match w, s with
  | [], _ => Some s
  | c :: w', d :: s' => if Ascii.eqb c d then strip_prefix w' s' else None
  | _ :: _, [] => None
  end.

(** The pattern matches at no position of the string. *)
Definition no_match (r : Re.regex) (s : str) : Prop :=
  forall p t, s = p ++ t -> Re.match_at r t = None.

(** ** The patcher *)

(** The document has a span: the start marker, later followed by the
    end marker. *)
Definition has_span (content : str) : Prop :=
  exists pre mid post, content = pre ++ MARKER_START ++ mid ++ MARKER_END ++ post.

(** [w] occurs after [pre], and nowhere further left. *)
Definition leftmost (w pre rest : str) : Prop :=
  forall p q, pre ++ w ++ rest = p ++ w ++ q -> (length pre <= length p)%nat.

Definition error_line : str :=
  py "Error: Could not find NEWS_START/NEWS_END markers in index.html".

Definition no_marker_world : world :=
  {| index_html := py "<html><body>no news</body></html>"; stdout := [] |}.

Definition same_world : world :=
  {| index_html := py "<p><!-- NEWS_START -->old<!-- NEWS_END --></p>";
     stdout := [] |}.

(** The claim of C8 as it is written: the first span is replaced with
    the fragment and the rest of the document is unchanged. *)
Definition replaces_first_span (news_html : str) (w : world) : Prop :=
  forall pre mid post,
    index_html w = pre ++ MARKER_START ++ mid ++ MARKER_END ++ post ->
    leftmost MARKER_START pre (mid ++ MARKER_END ++ post) ->
    leftmost MARKER_END mid post ->
    index_html (update_index_html news_html w).2 = pre ++ news_html ++ post.

Definition two_span_world : world :=
  {| index_html :=
       MARKER_START ++ py "a" ++ MARKER_END
       ++ py "x<!-- NEWS_START -->b<!-- NEWS_END -->";
     stdout := [] |}.

Definition one_span_world : world :=
  {| index_html := MARKER_START ++ py "a" ++ MARKER_END ++ py "z"; stdout := [] |}.

(** ** DOI equivalence of a DOI link and a Nature article page *)

Definition doi_link : str := py "https://doi.org/10.1038/s41586-1".
Definition nature_page : str := py "https://www.nature.com/articles/s41586-1".

(** ** DOI extraction *)

(** The URL has a DOI-like substring: [10.], four to nine digits, a
    slash, and at least one character that is neither white space nor a
    comma nor a semicolon. *)
Definition doi_like (url : str) : Prop :=
  exists pre ds run post,
    url = pre ++ py "10." ++ ds ++ "/" :: run ++ post
    /\ all is_digit ds /\ (4 <= length ds <= 9)%nat
    /\ run <> [] /\ all doi_char run.

(** The URL has the form of a Nature article page or of an arXiv
    abstract page. *)
Definition nature_like (url : str) : Prop :=
  exists pre c post,
    url = pre ++ py "nature.com/articles/s" ++ c :: post /\ nature_char c = true.

Definition arxiv_like (url : str) : Prop :=
  exists pre c post,
    url = pre ++ py "arxiv.org/abs/" ++ c :: post /\ arxiv_char c = true.

(** The claim of C5 as it is written. *)
Definition empty_without_doi (url : str) : Prop :=
  ~ doi_like url -> extract_dois url = ∅.

(** ** DOI normalization *)

(** The string ends with a slash; the string ends with a version suffix,
    [v] and digits at the end (or before a final newline, where [$]
    matches too). *)
Definition ends_with_slash (s : str) : Prop := exists p, s = p ++ ["/"].

Definition has_version_suffix (s : str) : Prop :=
  exists p ds tail,
    s = p ++ "v" :: ds ++ tail
    /\ ds <> [] /\ all is_digit ds /\ (tail = [] \/ tail = ["010"]).

(** The replacement by the empty string. *)
Definition erase (m : Re.rmatch) : str := [].

(** ** Occurrences of a literal *)

(** [occurs w s]: the literal [w] occurs in [s]. *)
Fixpoint occurs (w s : str) : bool :=
  match strip_prefix w s with
  | Some _ => true
  | None => match s with
            | [] => false
            | _ :: s' => occurs w s'
            end
  end.

(** Placed after [pre], the literal [w] has no occurrence that begins
    inside [pre]. *)
Definition first_at (w pre : str) : Prop :=
  occurs w (pre ++ removelast w) = false.

(** A well-formed DOI: [10.], four to nine digits, a slash and a
    non-empty suffix without white space, comma or semicolon. *)
Definition doi_shaped (d : str) : Prop :=
  exists ds s,
    d = py "10." ++ ds ++ "/" :: s
    /\ all is_digit ds /\ (4 <= length ds <= 9)%nat
    /\ s <> [] /\ all doi_char s.

(** The text ends here, or goes on with a character outside the class. *)
Definition stops (cls : ascii -> bool) (rest : str) : Prop :=
  match rest with [] => True | c :: _ => cls c = false end.

(** ** More on the merger *)

(** The tracking sets already account for the item: by its trimmed URL
    or by one of its DOIs. *)
Definition covered (sn : seen) (item : NewsItem) : Prop :=
  trimmed item ∈ existing_urls sn \/ ~ dois_of item ## existing_dois sn.

(** The line printed when [n] auto items were added. *)
Definition found_line (n : nat) : str :=
  py "Found " ++ str_of_nat n ++ py " new publication(s) from Semantic Scholar".

(** ** More on the renderer and the patcher *)

(** No field of the item that is rendered holds a backslash. *)
Definition plain_item (item : NewsItem) : Prop :=
  has_backslash (default [] (date item)) = false
  /\ has_backslash (default [] (text item)) = false
  /\ has_backslash (default [] (url item)) = false
  /\ has_backslash (default (py "here") (link_text item)) = false.

(** The anchor rendered for a URL and a link text. *)
Definition anchor (u link : str) : str :=
  py " <a href=" ++ [dquote] ++ u ++ [dquote] ++ py "> " ++ link ++ py " </a>.".

(** ** Fetching and the main program *)

(** The dictionary is well keyed: no key twice, and every paper stored
    under its own, non-empty identifier. *)
Definition dict_ok (papers : paper_dict) : Prop :=
  NoDup (map fst papers)
  /\ Forall (fun kp => Paper.paperId kp.2 = Some kp.1 /\ kp.1 <> []) papers.

(** The paper is in the answer to the request for one of the authors. *)
Definition served (urlopen : str -> response) (ids : list str) (p : Paper.t) : Prop :=
  exists id d, In id ids /\ urlopen (papers_url id) = Data (Some d) /\ In p d.

(** No request ends in an exception other than [URLError]. *)
Definition no_crash (urlopen : str -> response) (ids : list str) : Prop :=
  forall id, In id ids -> urlopen (papers_url id) <> OtherError.

(** The warnings for the authors whose request gave a [URLError]. *)
Definition warnings (urlopen : str -> response) (ids : list str) : list str :=
  omap (fun id => match urlopen (papers_url id) with
                  | UrlError e => Some (fetch_warning id e)
                  | _ => None
                  end) ids.

(** Two networks: every request times out; one author answers. *)
Definition all_down (u : str) : response := UrlError (py "timed out").

Definition one_author (u : str) : response :=
  if bool_decide (u = papers_url (py "2275825472"))
  then Data (Some [sample_paper; sample_paper])
  else UrlError (py "HTTP Error 429").

Definition crashing (u : str) : response := OtherError.

(** No paper in an answer has a [null] title. *)
Definition no_null_title (urlopen : str -> response) (ids : list str) : Prop :=
  forall p, served urlopen ids p -> ~ null_title p.

(** A record with a DOI. *)
Definition doi_paper : Paper.t :=
  {| Paper.paperId := Some (py "p1");
     Paper.title := Some (Some (py "A title"));
     Paper.publicationDate := Some (py "2024-09-01");
     Paper.year := Some 2024%Z;
     Paper.externalIds :=
       Some {| Paper.DOI := Some (py "10.1093/pnasnexus/pgae323");
               Paper.ArXiv := None |};
     Paper.url := None;
     Paper.venue := None |}.

(** The item of [doi_paper], and a manual entry of another work. *)
Definition doi_paper_item : NewsItem :=
  {| date := Some (py "2024-09-01");
     text := Some (py "Our paper " ++ [dquote] ++ py "A title" ++ [dquote]
                   ++ py " is available");
     url := Some (py "https://doi.org/10.1093/pnasnexus/pgae323");
     link_text := None;
     source := Some (py "semantic_scholar");
     paper_id := Some (py "p1") |}.

Definition talk_item : NewsItem :=
  item_with_url "2024-05-01" "https://example.org/talk".

(** A network on which the first author answers with [doi_paper] and a
    second record of the same identifier, and a machine with one stored
    entry. *)
Definition doi_author (u : str) : response :=
  if bool_decide (u = papers_url (py "2275825472"))
  then Data (Some [doi_paper; sample_paper])
  else UrlError (py "HTTP Error 429").

Definition stored_machine : machine :=
  {| news_json := Some [talk_item]; site := same_world |}.

Definition script_path : str := py "data/news.json".
Definition plain_argv : list str := [py "scripts/update_news.py"].
Definition dry_argv : list str := [py "scripts/update_news.py"; py "--dry-run"].

(** A network whose first author answers with a [null] title. *)
Definition null_author (u : str) : response :=
  if bool_decide (u = papers_url (py "2275825472"))
  then Data (Some [doi_paper; null_title_paper])
  else UrlError (py "HTTP Error 429").

(** * Properties *)

(** ** Strings and lines *)


Lemma split_line sep w rest :
  ~ In sep w -> split sep (w ++ sep :: rest) = w :: split sep rest.
Proof.
  induction w as [|c w IH]; simpl; intros Hn.
  - now rewrite Ascii.eqb_refl.
  - destruct (Ascii.eqb c sep) eqn:E.
    + apply Ascii.eqb_eq in E. subst. exfalso. apply Hn. now left.
    + rewrite IH by (intros H; apply Hn; now right). reflexivity.
Qed.

Lemma split_no_sep sep w : ~ In sep w -> split sep w = [w].
Proof.
  induction w as [|c w IH]; simpl; intros Hn; [reflexivity|].
  destruct (Ascii.eqb c sep) eqn:E.
  - apply Ascii.eqb_eq in E. subst. exfalso. apply Hn. now left.
  - rewrite IH by (intros H; apply Hn; now right). reflexivity.
Qed.

Lemma split_app_sep sep body rest :
  exists l, split sep (body ++ sep :: rest) = l ++ split sep rest /\ l <> [].
Proof.
  induction body as [|c body (l & E & Hl)]; simpl.
  - rewrite Ascii.eqb_refl. now exists [[]].
  - rewrite E. destruct (Ascii.eqb c sep).
    + now exists ([] :: l).
    + destruct l as [|x l]; [congruence|]. now exists ((c :: x) :: l).
Qed.

Lemma split_last_line sep body w :
  ~ In sep w -> last (split sep (body ++ sep :: w)) = Some w.
Proof.
  intros Hn. destruct (split_app_sep sep body w) as (l & -> & _).
  rewrite split_no_sep by exact Hn. apply last_snoc.
Qed.

Lemma join_cons sep x y l : join sep (x :: y :: l) = x ++ sep ++ join sep (y :: l).
Proof. reflexivity. Qed.

Lemma join_snoc sep l y z :
  join sep (l ++ [y; z]) = join sep (l ++ [y]) ++ sep ++ z.
Proof.
  induction l as [|x l IH]; simpl; [reflexivity|].
  destruct (l ++ [y; z]) as [|a l1] eqn:E1; [destruct l; discriminate|].
  destruct (l ++ [y]) as [|b l2] eqn:E2; [destruct l; discriminate|].
  rewrite IH. now rewrite <- !app_assoc.
Qed.

(** ** The record mapper *)

Lemma truthy_Some (o : option str) :
  truthy o = true <-> exists d, o = Some d /\ d <> [].
Proof.
  destruct o as [[|c d]|]; simpl; split; try discriminate.
  - intros (d & [= <-] & H). now destruct H.
  - intros _. eexists. split; [reflexivity|discriminate].
  - reflexivity.
  - intros (d & [=] & _).
Qed.

Lemma truthy_int_Some (o : option Z) :
  truthy_int o = true <-> exists y, o = Some y /\ y <> 0%Z.
Proof.
  destruct o as [z|]; simpl.
  - rewrite negb_true_iff, Z.eqb_neq. split.
    + intros H. now exists z.
    + now intros (y & [= <-] & H).
  - split; [discriminate|]. now intros (y & [=] & _).
Qed.

(** The record mapper, case by case.  It raises exactly on a [null]
    title.  It returns nothing exactly when the title is missing or a
    string and is empty after trimming, or the record has neither a
    publication date nor a year; otherwise the item's date is the
    publication date when there is one, else the year followed by
    -01-01. *)
Lemma paper_to_news_item_spec (p : Paper.t) :
  (paper_to_news_item p = Raise <-> null_title p)
  /\ (paper_to_news_item p = Ok None
      <-> ~ null_title p
          /\ (~ usable_title p \/ (~ has_pub_date p /\ ~ has_year p)))
  /\ (forall item, paper_to_news_item p = Ok (Some item) ->
        usable_title p
        /\ (forall d, Paper.publicationDate p = Some d -> d <> [] ->
                      date item = Some d)
        /\ (~ has_pub_date p ->
            forall y, Paper.year p = Some y ->
                      date item = Some (str_of_Z y ++ py "-01-01"))).
Proof.
  unfold null_title, usable_title, has_pub_date, has_year, paper_to_news_item.
  rewrite <- truthy_Some, <- truthy_int_Some.
  destruct (Paper.title p) as [[t|]|]; cbn [default].
  2:{ split; [now split|]. split; [|discriminate].
      split; [discriminate|]. now intros [H _]. }
  2:{ unfold id. simpl. split; [split; discriminate|]. split; [|discriminate].
      split; [|reflexivity]. intros _. split; [discriminate|]. left.
      intros (t & H & _). discriminate H. }
  unfold id.
  destruct (strip t) as [|c t'] eqn:Et; simpl.
  { split; [split; discriminate|]. split; [|discriminate].
    split; [|reflexivity]. intros _.
    split; [discriminate|]. left. intros (t0 & [= <-] & H). now rewrite Et in H. }
  assert (Hu : exists t0, Some (Some t) = Some (Some t0) /\ strip t0 <> [])
    by (exists t; split; [reflexivity|now rewrite Et]).
  destruct (truthy (Paper.publicationDate p)) eqn:Ed.
  - apply truthy_Some in Ed as (d & Ed & Hd). rewrite Ed.
    split; [split; discriminate|]. split.
    + split; [discriminate|]. intros [_ [H|[H _]]]; [now destruct H|].
      now destruct H.
    + intros item [= <-]. simpl. split; [exact Hu|]. split.
      * now intros d' [= <-] _.
      * intros H. destruct H. eauto.
  - destruct (truthy_int (Paper.year p)) eqn:Ey.
    + apply truthy_int_Some in Ey as (y & Ey & Hy). rewrite Ey. simpl.
      split; [split; discriminate|]. split.
      * split; [discriminate|]. intros [_ [H|[_ H]]]; [now destruct H|].
        now destruct H.
      * intros item [= <-]. simpl. split; [exact Hu|]. split.
        -- intros d Hd Hne.
           assert (truthy (Paper.publicationDate p) = true)
             by (apply truthy_Some; eauto).
           congruence.
        -- now intros _ y' [= <-].
    + split; [split; discriminate|]. split; [|discriminate].
      split; [|reflexivity]. intros _. split; [discriminate|].
      right. split; discriminate.
Qed.

Lemma paper_to_news_item_sample :
  exists item, paper_to_news_item sample_paper = Ok (Some item)
               /\ date item = Some (py "2024-01-01").
Proof.
  eexists. split; [reflexivity|].
  refine (proj2 (proj2 (proj2 (proj2 (paper_to_news_item_spec sample_paper))
                          _ eq_refl))
            _ 2024%Z eq_refl).
  intros (d & H & _). discriminate H.
Qed.

(** C7.  The record [{"paperId": "p2", "title": null, "year": 2024}]
    lacks a usable title, and the record mapper does not return nothing
    for it: the call raises ([None] has no [strip]).  A [null] in
    externalIds, next to it, is read as the empty object. *)
Theorem paper_to_news_item_null_title :
  ~ usable_title null_title_paper
  /\ paper_to_news_item null_title_paper = Raise
  /\ paper_to_news_item null_title_paper <> Ok None.
Proof.
  split; [|split].
  - intros (t & H & _). discriminate H.
  - reflexivity.
  - discriminate.
Qed.

(** ** String order and the stable sort *)

Lemma code_inj a b : code a = code b -> a = b.
Proof.
  unfold code. intros H.
  rewrite <- (ascii_N_embedding a), <- (ascii_N_embedding b). now rewrite H.
Qed.

Lemma str_compare_refl a : str_compare a a = Eq.
Proof. induction a as [|x a IH]; simpl; [reflexivity|]. now rewrite N.compare_refl. Qed.

Lemma str_compare_eq a b : str_compare a b = Eq -> a = b.
Proof.
  revert b. induction a as [|x a IH]; intros [|y b]; simpl; try discriminate; auto.
  destruct (code x ?= code y)%N eqn:E; try discriminate.
  intros H. apply N.compare_eq in E. apply code_inj in E. f_equal; auto.
Qed.

Lemma str_compare_antisym a b : str_compare b a = CompOpp (str_compare a b).
Proof.
  revert b. induction a as [|x a IH]; intros [|y b]; simpl; auto.
  rewrite (N.compare_antisym (code x) (code y)).
  destruct (code x ?= code y)%N; simpl; auto.
Qed.

Lemma str_compare_lt_trans a b c :
  str_compare a b = Lt -> str_compare b c = Lt -> str_compare a c = Lt.
Proof.
  revert b c. induction a as [|x a IH]; intros [|y b] [|z c]; simpl;
    try discriminate; auto.
  destruct (code x ?= code y)%N eqn:E1; try discriminate;
    destruct (code y ?= code z)%N eqn:E2; try discriminate; intros H1 H2.
  - apply N.compare_eq in E1, E2. rewrite E1, E2, N.compare_refl. eauto.
  - apply N.compare_eq in E1. now rewrite E1, E2.
  - apply N.compare_eq in E2. now rewrite <- E2, E1.
  - rewrite N.compare_lt_iff in E1, E2.
    assert (E : (code x ?= code z)%N = Lt) by (apply N.compare_lt_iff; lia).
    now rewrite E.
Qed.

Lemma str_ltb_irrefl a : str_ltb a a = false.
Proof. unfold str_ltb. now rewrite str_compare_refl. Qed.

(** [a >= b] and [b >= c] give [a >= c]. *)
Lemma str_geb_trans a b c :
  str_ltb a b = false -> str_ltb b c = false -> str_ltb a c = false.
Proof.
  unfold str_ltb. intros H1 H2.
  destruct (str_compare a c) eqn:E; auto. exfalso.
  destruct (str_compare a b) eqn:E1; try discriminate.
  - apply str_compare_eq in E1. subst. now rewrite E in H2.
  - destruct (str_compare b c) eqn:E2; try discriminate.
    + apply str_compare_eq in E2. subst. congruence.
    + assert (Hca : str_compare c a = Gt) by (rewrite str_compare_antisym, E; reflexivity).
      assert (Hcb : str_compare c b = Lt) by (rewrite str_compare_antisym, E2; reflexivity).
      assert (Hba : str_compare b a = Lt) by (rewrite str_compare_antisym, E1; reflexivity).
      pose proof (str_compare_lt_trans _ _ _ Hcb Hba). congruence.
Qed.

Lemma str_ltb_asym a b : str_ltb a b = true -> str_ltb b a = false.
Proof.
  unfold str_ltb. rewrite (str_compare_antisym a b).
  now destruct (str_compare a b).
Qed.

Section SortFacts.
Context {A : Type} (key : A -> str).

Lemma insert_desc_perm x l : Permutation (insert_desc key x l) (x :: l).
Proof.
  induction l as [|y l IH]; simpl; [reflexivity|].
  destruct (str_ltb (key x) (key y)); [|reflexivity].
  rewrite IH. apply perm_swap.
Qed.

Lemma sort_desc_perm l : Permutation (sort_desc key l) l.
Proof.
  induction l as [|x l IH]; simpl; [reflexivity|].
  rewrite insert_desc_perm. now constructor.
Qed.

Lemma insert_desc_sorted x l :
  StronglySorted (key_ge key) l -> StronglySorted (key_ge key) (insert_desc key x l).
Proof.
  induction 1 as [|y l Hs IH Hy]; simpl.
  - repeat constructor.
  - destruct (str_ltb (key x) (key y)) eqn:E.
    + constructor; [exact IH|].
      rewrite Forall_forall in *. intros z Hz.
      rewrite insert_desc_perm in Hz.
      apply elem_of_cons in Hz as [->|Hz]; [|now apply Hy].
      now apply str_ltb_asym.
    + constructor; [now constructor|].
      constructor; [exact E|].
      rewrite Forall_forall in *. intros z Hz.
      eapply str_geb_trans; [exact E|]. now apply Hy.
Qed.

Lemma sort_desc_sorted l : StronglySorted (key_ge key) (sort_desc key l).
Proof.
  induction l as [|x l IH]; simpl; [constructor|].
  now apply insert_desc_sorted.
Qed.

Lemma insert_desc_filter d x l :
  filter (fun y => key y = d) (insert_desc key x l)
  = filter (fun y => key y = d) (x :: l).
Proof.
  induction l as [|y l IH]; simpl; [reflexivity|].
  destruct (str_ltb (key x) (key y)) eqn:E; [|reflexivity].
  rewrite !filter_cons, IH, !filter_cons.
  destruct (decide (key y = d)) as [Hy|Hy]; [|reflexivity].
  destruct (decide (key x = d)) as [Hx|Hx]; [|reflexivity].
  rewrite Hx, Hy, str_ltb_irrefl in E. discriminate.
Qed.

(** Stability: the items of any one key keep their order. *)
Lemma sort_desc_stable d l :
  filter (fun y => key y = d) (sort_desc key l)
  = filter (fun y => key y = d) l.
Proof.
  induction l as [|x l IH]; simpl; [reflexivity|].
  rewrite insert_desc_filter, !filter_cons, IH. reflexivity.
Qed.
End SortFacts.

(** ** The merger *)

Lemma truthy_has_url item : truthy (Some (get_url item)) = true <-> has_url item.
Proof. unfold has_url. destruct (get_url item); simpl; split; congruence. Qed.

Lemma dois_of_no_url item : ~ has_url item -> dois_of item = ∅.
Proof.
  unfold has_url, dois_of. intros H.
  destruct (get_url item); [reflexivity|]. now destruct H.
Qed.

Lemma tracks_nil : tracks {| existing_urls := ∅; existing_dois := ∅ |} [].
Proof.
  split; intros z; simpl;
    (split; [intros H; now apply elem_of_empty in H
            |intros (x & Hx & _); now apply elem_of_nil in Hx]).
Qed.

Lemma tracks_snoc sn l item :
  tracks sn l -> has_url item ->
  tracks {| existing_urls := existing_urls sn ∪ {[ trimmed item ]};
            existing_dois := existing_dois sn ∪ dois_of item |} (l ++ [item]).
Proof.
  intros [Hu Hd] Hi. split; intros z; simpl.
  - rewrite elem_of_union, Hu, elem_of_singleton. split.
    + intros [(x & Hx & H1 & H2)| ->].
      * exists x. rewrite elem_of_app. auto.
      * exists item. rewrite elem_of_app, list_elem_of_singleton. auto.
    + intros (x & Hx & H1 & H2).
      rewrite elem_of_app, list_elem_of_singleton in Hx.
      destruct Hx as [Hx| ->]; eauto.
  - rewrite elem_of_union, Hd. split.
    + intros [(x & Hx & H1)|H].
      * exists x. rewrite elem_of_app. auto.
      * exists item. rewrite elem_of_app, list_elem_of_singleton. auto.
    + intros (x & Hx & H1).
      rewrite elem_of_app, list_elem_of_singleton in Hx.
      destruct Hx as [Hx| ->]; eauto.
Qed.

Lemma tracks_skip sn l item : tracks sn l -> ~ has_url item -> tracks sn (l ++ [item]).
Proof.
  intros [Hu Hd] Hi. split; intros z.
  - rewrite Hu. split; intros (x & Hx & H1 & H2); exists x.
    + rewrite elem_of_app. auto.
    + rewrite elem_of_app, list_elem_of_singleton in Hx.
      destruct Hx as [Hx| ->]; [auto|contradiction].
  - rewrite Hd. split; intros (x & Hx & H1); exists x.
    + rewrite elem_of_app. auto.
    + rewrite elem_of_app, list_elem_of_singleton in Hx.
      destruct Hx as [Hx| ->]; [auto|].
      rewrite dois_of_no_url in H1 by exact Hi. set_solver.
Qed.

Lemma seed_tracks manual : tracks (seed manual) manual.
Proof.
  unfold seed.
  assert (G : forall l done sn, tracks sn done ->
                tracks (fold_left seed_step l sn) (done ++ l)).
  { induction l as [|item l IH]; intros done sn H; simpl.
    - now rewrite app_nil_r.
    - replace (done ++ item :: l) with ((done ++ [item]) ++ l)
        by (now rewrite <- app_assoc).
      apply IH. unfold seed_step.
      destruct (truthy (Some (get_url item))) eqn:E.
      + apply tracks_snoc; [exact H|]. now apply truthy_has_url.
      + apply tracks_skip; [exact H|]. rewrite <- truthy_has_url. congruence. }
  apply (G manual [] _ tracks_nil).
Qed.

Lemma doi_overlap_false a b : doi_overlap a b = false -> a ## b.
Proof.
  unfold doi_overlap. intros H. apply bool_decide_eq_false in H.
  apply dec_stable in H. set_solver.
Qed.

Lemma merge_step_inv manual kept a item :
  merge_inv manual kept a ->
  merge_inv manual kept (merge_step a item)
  \/ merge_inv manual (kept ++ [item]) (merge_step a item).
Proof.
  intros [Hm Ht Ha Hc]. unfold merge_step.
  destruct (truthy (Some (get_url item))) eqn:Eu; simpl; [|left; now split].
  apply truthy_has_url in Eu.
  case_bool_decide as Hin; [left; now split|].
  destruct (doi_overlap _ _) eqn:Eo; [left; now split|].
  apply doi_overlap_false in Eo.
  right. split; simpl.
  - now rewrite Hm, app_assoc.
  - rewrite app_assoc. now apply tracks_snoc.
  - constructor; [exact Ha|exact Eu|].
    destruct Ht as [Hu Hd]. split.
    + intros x Hx Hxu Heq. apply Hin. apply Hu. eauto.
    + intros x Hx d Hd1 Hd2. apply (Eo d); [exact Hd2|].
      apply Hd. eauto.
  - rewrite length_app. simpl. lia.
Qed.

Lemma merge_loop_inv manual auto :
  exists kept, sublist kept auto /\ merge_inv manual kept (merge_loop manual auto).
Proof.
  unfold merge_loop.
  assert (G : forall l kept a, merge_inv manual kept a ->
                exists more, sublist more l
                             /\ merge_inv manual (kept ++ more) (fold_left merge_step l a)).
  { induction l as [|item l IH]; intros kept a H; simpl.
    - exists []. rewrite app_nil_r. split; [constructor|exact H].
    - destruct (merge_step_inv _ _ _ item H) as [H1|H1];
        destruct (IH _ _ H1) as (more & Hs & Hi).
      + exists more. split; [now apply sublist_cons|exact Hi].
      + exists (item :: more). split; [now apply sublist_skip|].
        now rewrite <- app_assoc in Hi. }
  destruct (G auto [] {| merged := manual; tracked := seed manual; new_count := 0 |})
    as (more & Hs & Hi).
  - split; simpl.
    + now rewrite app_nil_r.
    + rewrite app_nil_r. apply seed_tracks.
    + constructor.
    + reflexivity.
  - now exists more.
Qed.

Lemma accepted_pairs manual kept :
  accepted manual kept ->
  forall i j x y,
    (i < j)%nat -> (length manual <= j)%nat ->
    (manual ++ kept) !! i = Some x -> (manual ++ kept) !! j = Some y ->
    (has_url x -> trimmed x <> trimmed y) /\ dois_of x ## dois_of y.
Proof.
  induction 1 as [|kept item Ha IH Hu [Hf1 Hf2]]; intros i j x y Hij Hj Hx Hy.
  - rewrite app_nil_r in Hy. apply lookup_lt_Some in Hy. lia.
  - rewrite app_assoc in Hx, Hy.
    destruct (decide (j < length (manual ++ kept))%nat) as [Hlt|Hge].
    + rewrite lookup_app_l in Hx, Hy by lia. eauto.
    + assert (Hjl : j = length (manual ++ kept)).
      { apply lookup_lt_Some in Hy. rewrite length_app in Hy. simpl in Hy. lia. }
      subst j. rewrite list_lookup_middle in Hy by reflexivity.
      injection Hy as <-.
      rewrite lookup_app_l in Hx by lia.
      apply list_elem_of_lookup_2 in Hx. auto.
Qed.

Lemma accepted_has_url manual kept : accepted manual kept -> Forall has_url kept.
Proof.
  induction 1; [constructor|]. apply Forall_app. split; [assumption|].
  now repeat constructor.
Qed.

(** C3.  The merge keeps the manual items: with their multiplicities
    they are among the items of the output, whatever the auto items are
    and even when manual items duplicate each other. *)
Theorem merge_news_keeps_manual (manual auto : list NewsItem) :
  manual ⊆+ (merge_news manual auto).1
  /\ Forall (fun item => item ∈ (merge_news manual auto).1) manual.
Proof.
  destruct (merge_loop_inv manual auto) as (kept & _ & [Hm _ _ _]).
  assert (P : (merge_news manual auto).1 ≡ₚ manual ++ kept).
  { unfold merge_news. simpl. now rewrite sort_desc_perm, Hm. }
  split.
  - rewrite P. apply submseteq_inserts_r. reflexivity.
  - apply Forall_forall. intros x Hx. rewrite P, elem_of_app. now left.
Qed.

(** C6.  The output is in descending order of the date strings, and the
    sort is stable: for each date, the items carrying it come in the
    order of the sequence before sorting, which is the manual items in
    input order followed by the accepted auto items in input order. *)
Theorem merge_news_sorted_stable (manual auto : list NewsItem) :
  StronglySorted (key_ge date_key) (merge_news manual auto).1
  /\ exists kept,
       sublist kept auto
       /\ merged (merge_loop manual auto) = manual ++ kept
       /\ forall d,
            filter (fun item => date_key item = d) (merge_news manual auto).1
            = filter (fun item => date_key item = d) (manual ++ kept).
Proof.
  split; [apply sort_desc_sorted|].
  destruct (merge_loop_inv manual auto) as (kept & Hs & [Hm _ _ _]).
  exists kept. split; [exact Hs|]. split; [exact Hm|].
  intros d. unfold merge_news. simpl. now rewrite sort_desc_stable, Hm.
Qed.

(** C1, as stated, fails: two manual items with the same URL both stay
    in the output. *)
Lemma merge_news_duplicate_manual :
  ~ no_duplicates (merge_news [nature_doi_item; nature_doi_item] []).1.
Proof.
  intros H.
  destruct (H 0%nat 1%nat nature_doi_item nature_doi_item) as [Hu _];
    [discriminate|reflexivity|reflexivity|].
  apply Hu; [discriminate|discriminate|reflexivity].
Qed.

(** C1, amended.  The output is a reordering of the manual items
    followed by the accepted auto items; every accepted auto item has a
    URL, and of any two items of which the later is an accepted auto
    item, the trimmed URLs differ (when the earlier has a URL) and the
    DOI sets are disjoint. *)
Theorem merge_news_no_duplicate_auto (manual auto : list NewsItem) :
  exists kept,
    sublist kept auto
    /\ (merge_news manual auto).1 ≡ₚ manual ++ kept
    /\ Forall has_url kept
    /\ forall i j x y,
         (i < j)%nat -> (length manual <= j)%nat ->
         (manual ++ kept) !! i = Some x -> (manual ++ kept) !! j = Some y ->
         (has_url x -> trimmed x <> trimmed y) /\ dois_of x ## dois_of y.
Proof.
  destruct (merge_loop_inv manual auto) as (kept & Hs & [Hm _ Ha _]).
  exists kept. split; [exact Hs|]. split.
  { unfold merge_news. simpl. now rewrite sort_desc_perm, Hm. }
  split; [now apply accepted_has_url with manual|].
  now apply accepted_pairs.
Qed.

(** ** The matcher *)

Module ReFacts.
Import Re.

Lemma consumed_app m rest : consumed (m ++ rest) rest = m.
Proof.
  unfold consumed. rewrite length_app.
  replace (length m + length rest - length rest)%nat with (length m) by lia.
  now rewrite take_app_length.
Qed.

Lemma rep_sound {R} cls q (k : str -> option R) lo hi s x :
  rep cls q k lo hi s = Some x ->
  exists m t, s = m ++ t /\ all cls m /\ (lo <= length m)%nat
              /\ within hi (length m) /\ k t = Some x.
Proof.
  assert (Stop : forall lo hi s,
             match lo with 0%nat => k s | S _ => None end = Some x ->
             exists m t, s = m ++ t /\ all cls m /\ (lo <= length m)%nat
                         /\ within hi (length m) /\ k t = Some x).
  { intros [|lo'] hi' s' H; [|discriminate].
    exists [], s'. repeat split; auto; [constructor|].
    destruct hi'; simpl; lia. }
  assert (More : forall lo hi c s',
             cls c && room hi = true ->
             (exists m t, s' = m ++ t /\ all cls m /\ (pred lo <= length m)%nat
                          /\ within (less hi) (length m) /\ k t = Some x) ->
             exists m t, c :: s' = m ++ t /\ all cls m /\ (lo <= length m)%nat
                         /\ within hi (length m) /\ k t = Some x).
  { intros lo' hi' c s' Hc (m & t & -> & Hm & Hlo & Hhi & Hk).
    apply andb_true_iff in Hc as [Hc Hr].
    exists (c :: m), t. repeat split; auto.
    - now constructor.
    - simpl. lia.
    - destruct hi' as [[|h]|]; simpl in *; try discriminate; auto. lia. }
  revert lo hi. induction s as [|c s IH]; intros lo hi; simpl.
  - apply Stop.
  - destruct (cls c && room hi) eqn:Ec; [|apply Stop].
    destruct q.
    + destruct (rep cls Greedy k (pred lo) (less hi) s) eqn:Er.
      * intros [= <-]. apply More; auto.
      * apply Stop.
    + destruct (match lo with 0%nat => k (c :: s) | S _ => None end) eqn:Es.
      * intros [= <-]. now apply Stop.
      * intros H. apply More; auto.
Qed.

Lemma rep_complete {R} cls q (k : str -> option R) lo hi m t :
  all cls m -> (lo <= length m)%nat -> within hi (length m) ->
  is_Some (k t) -> is_Some (rep cls q k lo hi (m ++ t)).
Proof.
  intros Hm. revert lo hi.
  induction Hm as [|c m Hc Hm IH]; intros lo hi Hlo Hhi Hk; simpl in *.
  - assert (lo = 0%nat) as -> by lia.
    destruct t as [|c t]; simpl; [exact Hk|].
    destruct (cls c && room hi); [|exact Hk].
    destruct q.
    + destruct (rep cls Greedy k 0 (less hi) t); [eauto|exact Hk].
    + destruct Hk as [y ->]. eauto.
  - assert (Hr : room hi = true) by (destruct hi as [[|h]|]; simpl in *; auto; lia).
    rewrite Hc, Hr. simpl.
    assert (Hrec : is_Some (rep cls q k (pred lo) (less hi) (m ++ t))).
    { apply IH; auto; [lia|].
      destruct hi as [h|]; simpl in *; auto. lia. }
    destruct q.
    + destruct Hrec as [y ->]. eauto.
    + destruct (match lo with 0%nat => k (c :: m ++ t) | S _ => None end); eauto.
Qed.

Lemma rep_ext {R} cls q (k k' : str -> option R) lo hi s :
  (forall t, k t = k' t) -> rep cls q k lo hi s = rep cls q k' lo hi s.
Proof.
  intros E. revert lo hi. induction s as [|c s IH]; intros lo hi; simpl.
  - now rewrite E.
  - now rewrite !IH, E.
Qed.

(** A lazy [.*] tries the continuation at each position in turn. *)
Lemma rep_lazy_any {R} (k : str -> option R) s :
  rep any Lazy k 0 None s
  = match k s with
    | Some x => Some x
    | None => match s with
              | [] => None
              | _ :: s' => rep any Lazy k 0 None s'
              end
    end.
Proof. destruct s; simpl; [now destruct (k [])|reflexivity]. Qed.

Lemma rep_lazy_skip {R} (k : str -> option R) m t :
  (forall m1 m2, m = m1 ++ m2 -> m2 <> [] -> k (m2 ++ t) = None) ->
  rep any Lazy k 0 None (m ++ t) = rep any Lazy k 0 None t.
Proof.
  induction m as [|c m IH]; intros H; [reflexivity|].
  rewrite rep_lazy_any. rewrite (H [] (c :: m)) by (auto; discriminate).
  simpl. apply IH. intros m1 m2 -> Hne. apply (H (c :: m1)); auto.
Qed.

Lemma strip_prefix_Some w s t : strip_prefix w s = Some t <-> s = w ++ t.
Proof.
  revert s. induction w as [|c w IH]; intros s; simpl.
  - split; congruence.
  - destruct s as [|d s]; [split; discriminate|].
    destruct (Ascii.eqb c d) eqn:E.
    + apply Ascii.eqb_eq in E. subst. rewrite IH. split; congruence.
    + apply Ascii.eqb_neq in E. split; [discriminate|]. congruence.
Qed.

Lemma strip_prefix_app w t : strip_prefix w (w ++ t) = Some t.
Proof. now apply strip_prefix_Some. Qed.

Lemma match_chr c r st s :
  match_items (chr c :: r) st s
  = match s with
    | d :: s' => if Ascii.eqb c d then match_items r st s' else None
    | [] => None
    end.
Proof.
  destruct s as [|d s]; simpl; [reflexivity|].
  destruct (Ascii.eqb c d); simpl; [|reflexivity].
  destruct s as [|e s]; simpl; [|rewrite andb_false_r];
    now destruct (match_items r st _).
Qed.

Lemma match_escape w r st s :
  match_items (escape w ++ r) st s
  = match strip_prefix w s with
    | Some t => match_items r st t
    | None => None
    end.
Proof.
  revert s. induction w as [|c w IH]; intros s; [reflexivity|].
  change (escape (c :: w) ++ r) with (chr c :: (escape w ++ r)).
  rewrite match_chr. destruct s as [|d s]; simpl; [reflexivity|].
  destruct (Ascii.eqb c d); [apply IH|reflexivity].
Qed.

(** A pattern that starts with a literal character consumes at least
    that character. *)
Lemma match_items_suffix r st s st' rest :
  match_items r st s = Some (st', rest) -> exists m, s = m ++ rest.
Proof.
  revert st s. induction r as [|i r IH]; intros st s; simpl.
  - intros [= <- <-]. now exists [].
  - destruct i as [cls lo hi q| | |].
    + intros H. apply rep_sound in H as (m & t & -> & _ & _ & _ & H).
      apply IH in H as (m' & ->). exists (m ++ m'). now rewrite app_assoc.
    + destruct (at_end s); [apply IH|discriminate].
    + apply IH.
    + apply IH.
Qed.

Lemma match_at_text r s m :
  match_at r s = Some m -> s = m_text m ++ m_rest m.
Proof.
  unfold match_at. destruct (match_items r no_caps s) as [[st rest]|] eqn:E;
    [|discriminate].
  intros [= <-]. simpl. apply match_items_suffix in E as (x & ->).
  now rewrite consumed_app.
Qed.

Lemma match_at_chr_nonempty c r s m :
  match_at (chr c :: r) s = Some m -> m_text m <> [].
Proof.
  unfold match_at. rewrite match_chr.
  destruct s as [|d s]; [discriminate|].
  destruct (Ascii.eqb c d); [|discriminate].
  destruct (match_items r no_caps s) as [[st rest]|] eqn:E; [|discriminate].
  intros [= <-]. simpl. apply match_items_suffix in E as (x & ->).
  change (d :: x ++ rest) with ((d :: x) ++ rest).
  rewrite consumed_app. discriminate.
Qed.

Lemma no_match_tail r c s : no_match r (c :: s) -> no_match r s.
Proof. intros H p t ->. apply (H (c :: p)). reflexivity. Qed.

Lemma search_None r s : search r s = None <-> no_match r s.
Proof.
  induction s as [|c s IH]; simpl.
  - destruct (match_at r []) eqn:E; split; try discriminate; auto.
    + intros H. rewrite (H [] []) in E by reflexivity. discriminate.
    + intros _ p t Hpt. symmetry in Hpt. apply app_eq_nil in Hpt as [-> ->].
      exact E.
  - destruct (match_at r (c :: s)) eqn:E; split; try discriminate.
    + intros H. rewrite (H [] (c :: s)) in E by reflexivity. discriminate.
    + rewrite IH. intros H [|d p] t Hpt; simpl in Hpt.
      * now subst.
      * injection Hpt as -> ->. now apply (H p).
    + intros H. apply IH. now apply no_match_tail with c.
Qed.


Lemma finditer_no_match r s : no_match r s -> finditer r s = [].
Proof.
  unfold finditer. induction s as [|c s IH]; intros H; simpl.
  - now rewrite (H [] []).
  - rewrite (H [] (c :: s)) by reflexivity. apply IH.
    now apply no_match_tail with c.
Qed.

Lemma sub_no_match r f s : no_match r s -> sub_with r f s = s.
Proof.
  unfold sub_with. induction s as [|c s IH]; intros H; simpl.
  - now rewrite (H [] []).
  - rewrite (H [] (c :: s)) by reflexivity. f_equal. apply IH.
    now apply no_match_tail with c.
Qed.

Lemma sub_from_skip r f x rest :
  sub_from r f (length x) (x ++ rest) = sub_from r f 0 rest.
Proof. induction x as [|c x IH]; [reflexivity|exact IH]. Qed.

(** Up to the first match the text is copied; the match is replaced and
    the scan resumes after it. *)
Lemma sub_first_match r f pre s m :
  (forall p q, pre = p ++ q -> q <> [] -> match_at r (q ++ s) = None) ->
  match_at r s = Some m -> m_text m <> [] ->
  sub_with r f (pre ++ s) = pre ++ f m ++ sub_with r f (m_rest m).
Proof.
  unfold sub_with. intros Hpre Hm Hne.
  induction pre as [|c pre IH]; simpl.
  - pose proof (match_at_text _ _ _ Hm) as Es.
    destruct s as [|c s]; [destruct (m_text m); [now destruct Hne|discriminate]|].
    simpl. rewrite Hm. f_equal.
    destruct (m_text m) as [|d x] eqn:Ex; [now destruct Hne|].
    simpl in *. injection Es as <- ->. apply sub_from_skip.
  - pose proof (Hpre [] (c :: pre) eq_refl) as Hc. simpl in Hc.
    rewrite Hc by discriminate.
    f_equal. apply IH. intros p q -> Hq. apply (Hpre (c :: p)); auto.
Qed.

End ReFacts.

(** ** The patcher *)

Import ReFacts.

Lemma span_re_unfold (a b : str) st s :
  Re.match_items (Re.escape a ++ [Re.Chars Re.any 0 None Re.Lazy] ++ Re.escape b) st s
  = match strip_prefix a s with
    | Some t =>
        Re.rep Re.any Re.Lazy
          (fun t' => match strip_prefix b t' with
                     | Some rest => Some (st, rest)
                     | None => None
                     end) 0 None t
    | None => None
    end.
Proof.
  rewrite match_escape.
  destruct (strip_prefix a s) as [t|]; [|reflexivity].
  change (Re.match_items ([Re.Chars Re.any 0 None Re.Lazy] ++ Re.escape b) st t)
    with (Re.rep Re.any Re.Lazy (Re.match_items (Re.escape b) st) 0 None t).
  apply rep_ext. intros t'.
  rewrite <- (app_nil_r (Re.escape b)), match_escape. reflexivity.
Qed.

Lemma marker_re_unfold st s :
  Re.match_items marker_re st s
  = match strip_prefix MARKER_START s with
    | Some t =>
        Re.rep Re.any Re.Lazy
          (fun t' => match strip_prefix MARKER_END t' with
                     | Some rest => Some (st, rest)
                     | None => None
                     end) 0 None t
    | None => None
    end.
Proof. exact (span_re_unfold MARKER_START MARKER_END st s). Qed.

Lemma marker_match_sound st s st' rest :
  Re.match_items marker_re st s = Some (st', rest) ->
  exists mid, s = MARKER_START ++ mid ++ MARKER_END ++ rest.
Proof.
  rewrite marker_re_unfold.
  destruct (strip_prefix MARKER_START s) as [t|] eqn:Et; [|discriminate].
  apply strip_prefix_Some in Et as ->.
  intros H. apply rep_sound in H as (m & t' & -> & _ & _ & _ & H).
  destruct (strip_prefix MARKER_END t') as [r|] eqn:Er; [|discriminate].
  apply strip_prefix_Some in Er as ->. injection H as _ ->.
  exists m. now rewrite <- ?app_assoc.
Qed.

Lemma marker_match_complete st mid rest :
  is_Some (Re.match_items marker_re st (MARKER_START ++ mid ++ MARKER_END ++ rest)).
Proof.
  rewrite marker_re_unfold, strip_prefix_app.
  apply rep_complete; [|simpl; lia|exact I|].
  - apply Forall_forall. reflexivity.
  - rewrite strip_prefix_app. eauto.
Qed.

Lemma marker_match_first st mid post :
  leftmost MARKER_END mid post ->
  Re.match_items marker_re st (MARKER_START ++ mid ++ MARKER_END ++ post)
  = Some (st, post).
Proof.
  intros Hl. rewrite marker_re_unfold, strip_prefix_app.
  rewrite rep_lazy_skip.
  - rewrite rep_lazy_any, strip_prefix_app. reflexivity.
  - intros m1 m2 -> Hne.
    destruct (strip_prefix MARKER_END (m2 ++ MARKER_END ++ post)) as [r|] eqn:E;
      [|reflexivity].
    apply strip_prefix_Some in E.
    specialize (Hl m1 r). rewrite <- app_assoc, E in Hl.
    specialize (Hl eq_refl). rewrite length_app in Hl.
    destruct m2; [now destruct Hne|simpl in Hl; lia].
Qed.

Lemma search_marker_None content :
  Re.search marker_re content = None <-> ~ has_span content.
Proof.
  rewrite search_None. split.
  - intros H (pre & mid & post & ->).
    specialize (H pre _ eq_refl). unfold Re.match_at in H.
    destruct (marker_match_complete Re.no_caps mid post) as [[st r] E].
    now rewrite E in H.
  - intros H p t ->. unfold Re.match_at.
    destruct (Re.match_items marker_re Re.no_caps t) as [[st r]|] eqn:E;
      [|reflexivity].
    apply marker_match_sound in E as (mid & ->).
    destruct H. now exists p, mid, r.
Qed.

Lemma re_sub_literal r repl s :
  has_backslash repl = false -> re_sub r repl s = Ok (sub_literal r repl s).
Proof. unfold re_sub. now intros ->. Qed.

(** C9.  When the document has no span between the markers (in
    particular when the markers are absent), the patcher reports the
    error, writes nothing, raises nothing and returns false; when the
    result of the replacement is identical to the current content, it
    reports so, writes nothing and returns false. *)
Theorem update_index_html_no_write (news_html : str) (w : world) :
  (~ has_span (index_html w) ->
   update_index_html news_html w = (Ok false, print error_line w))
  /\ (has_span (index_html w) ->
      re_sub marker_re news_html (index_html w) = Ok (index_html w) ->
      update_index_html news_html w
      = (Ok false, print (py "No changes to index.html") w)).
Proof.
  unfold update_index_html. split.
  - intros H. apply search_marker_None in H. now rewrite H.
  - intros H E.
    destruct (Re.search marker_re (index_html w)) eqn:Es.
    + rewrite E. now rewrite bool_decide_eq_true_2.
    + apply search_marker_None in Es. contradiction.
Qed.

Lemma update_index_html_no_write_witness :
  update_index_html (py "<ul></ul>") no_marker_world
  = (Ok false, print error_line no_marker_world)
  /\ update_index_html (py "<!-- NEWS_START -->old<!-- NEWS_END -->") same_world
     = (Ok false, print (py "No changes to index.html") same_world).
Proof.
  split.
  - apply (proj1 (update_index_html_no_write (py "<ul></ul>") no_marker_world)).
    apply search_marker_None. vm_compute. reflexivity.
  - apply (proj2 (update_index_html_no_write
                    (py "<!-- NEWS_START -->old<!-- NEWS_END -->") same_world)).
    + exists (py "<p>"), (py "old"), (py "</p>"). reflexivity.
    + vm_compute. reflexivity.
Defined.

Lemma leftmost_nil w rest : leftmost w [] rest.
Proof. intros p q _. simpl. lia. Qed.

Lemma leftmost_end_a post : leftmost MARKER_END (py "a") post.
Proof.
  intros [|c p] q H; [discriminate H|]. simpl. lia.
Qed.

(** C8, as stated, fails: a second span is replaced as well, and a
    fragment with a backslash is not inserted as it is. *)
Lemma update_index_html_not_first_only :
  ~ replaces_first_span (py "F") two_span_world
  /\ ~ replaces_first_span (py "1\n2") one_span_world.
Proof.
  split; intros H.
  - specialize (H [] (py "a") (py "x<!-- NEWS_START -->b<!-- NEWS_END -->")
                  eq_refl (leftmost_nil _ _) (leftmost_end_a _)).
    vm_compute in H. discriminate H.
  - specialize (H [] (py "a") (py "z") eq_refl (leftmost_nil _ _)
                  (leftmost_end_a _)).
    vm_compute in H. discriminate H.
Qed.

Lemma sub_marker_first repl pre mid post :
  leftmost MARKER_START pre (mid ++ MARKER_END ++ post) ->
  leftmost MARKER_END mid post ->
  sub_literal marker_re repl (pre ++ MARKER_START ++ mid ++ MARKER_END ++ post)
  = pre ++ repl ++ sub_literal marker_re repl post.
Proof.
  intros Hs He. unfold sub_literal.
  assert (Hm : Re.match_at marker_re (MARKER_START ++ mid ++ MARKER_END ++ post)
               = Some {| Re.m_text := MARKER_START ++ mid ++ MARKER_END;
                         Re.m_group1 := None; Re.m_rest := post |}).
  { unfold Re.match_at. rewrite marker_match_first by exact He.
    f_equal. f_equal.
    replace (MARKER_START ++ mid ++ MARKER_END ++ post)
      with ((MARKER_START ++ mid ++ MARKER_END) ++ post)
      by (now rewrite <- !app_assoc).
    apply consumed_app. }
  assert (Hp : forall p q, pre = p ++ q -> q <> [] ->
                 Re.match_at marker_re
                   (q ++ MARKER_START ++ mid ++ MARKER_END ++ post) = None).
  { intros p q -> Hq. unfold Re.match_at.
    destruct (Re.match_items marker_re Re.no_caps
                (q ++ MARKER_START ++ mid ++ MARKER_END ++ post))
      as [[st r]|] eqn:E; [|reflexivity].
    apply marker_match_sound in E as (mid' & E).
    specialize (Hs p (mid' ++ MARKER_END ++ r)).
    rewrite <- app_assoc, E in Hs. specialize (Hs eq_refl).
    rewrite length_app in Hs. destruct q; [now destruct Hq|simpl in Hs; lia]. }
  rewrite (sub_first_match _ _ pre _ _ Hp Hm); [reflexivity|discriminate].
Qed.

(** C8, amended.  When the fragment has no backslash and the document
    has a span, the patcher replaces the leftmost span (shortest, across
    lines) with the fragment, copies what precedes it, and treats what
    follows it in the same way: every later span is replaced too, and
    text after the last span is unchanged.  The new content is written
    unless it equals the old. *)
Theorem update_index_html_replaces
    (news_html : str) (w : world) (pre mid post : str) :
  has_backslash news_html = false ->
  index_html w = pre ++ MARKER_START ++ mid ++ MARKER_END ++ post ->
  leftmost MARKER_START pre (mid ++ MARKER_END ++ post) ->
  leftmost MARKER_END mid post ->
  let new_content := pre ++ news_html ++ sub_literal marker_re news_html post in
  re_sub marker_re news_html (index_html w) = Ok new_content
  /\ (~ has_span post -> new_content = pre ++ news_html ++ post)
  /\ (new_content <> index_html w ->
      update_index_html news_html w
      = (Ok true, print (py "Updated index.html") (write_index new_content w))).
Proof.
  intros Hb Hc Hs He new_content.
  assert (Hr : re_sub marker_re news_html (index_html w) = Ok new_content).
  { rewrite re_sub_literal by exact Hb. rewrite Hc.
    now rewrite sub_marker_first. }
  split; [exact Hr|]. split.
  - intros Hn. unfold new_content, sub_literal.
    rewrite sub_no_match; [reflexivity|].
    now apply search_None, search_marker_None.
  - intros Hne. unfold update_index_html.
    destruct (Re.search marker_re (index_html w)) eqn:E.
    + rewrite Hr. now rewrite bool_decide_eq_false_2.
    + apply search_marker_None in E. destruct E. rewrite Hc. now exists pre, mid, post.
Qed.

Lemma update_index_html_replaces_witness :
  update_index_html (py "F") one_span_world
  = (Ok true, print (py "Updated index.html") (write_index (py "Fz") one_span_world)).
Proof.
  refine (proj2 (proj2 (update_index_html_replaces (py "F") one_span_world
                          [] (py "a") (py "z") eq_refl eq_refl
                          (leftmost_nil _ _) (leftmost_end_a _))) _).
  vm_compute. discriminate.
Defined.

(** ** DOI equivalence of a DOI link and a Nature article page *)

Lemma extract_dois_doi_link : extract_dois doi_link = {[ py "10.1038/s41586-1" ]}.
Proof. apply (bool_decide_unpack _). vm_compute. exact I. Qed.

Lemma extract_dois_nature_page : extract_dois nature_page = {[ py "10.1038/s41586-1" ]}.
Proof. apply (bool_decide_unpack _). vm_compute. exact I. Qed.

Lemma merge_news_overlap (m a : NewsItem) :
  has_url m -> has_url a ->
  doi_overlap (dois_of a) (dois_of m) = true ->
  (merge_news [m] [a]).1 = [m].
Proof.
  intros Hm Ha Ho. apply truthy_has_url in Hm, Ha.
  assert (Es : seed [m] = {| existing_urls := ∅ ∪ {[ trimmed m ]};
                             existing_dois := ∅ ∪ dois_of m |}).
  { unfold seed. cbn [fold_left]. unfold seed_step. now rewrite Hm. }
  unfold merge_news, merge_loop. cbn [fold_left fst]. rewrite Es.
  unfold merge_step. cbn [tracked existing_urls existing_dois merged].
  rewrite Ha. cbn [negb].
  fold (dois_of a).
  rewrite (left_id_L ∅ (∪) (dois_of m)), Ho. now case_bool_decide.
Qed.

(** C4.  A manual item that links the DOI 10.1038/s41586-1 and an auto
    item that links the Nature page of the same article, or the other
    way round, merge into one entry: the manual item alone. *)
Theorem merge_news_dedup_by_doi (x y : NewsItem) :
  url x = Some doi_link -> url y = Some nature_page ->
  (merge_news [x] [y]).1 = [x] /\ (merge_news [y] [x]).1 = [y].
Proof.
  intros Hx Hy.
  assert (Gx : get_url x = doi_link) by (unfold get_url; now rewrite Hx).
  assert (Gy : get_url y = nature_page) by (unfold get_url; now rewrite Hy).
  assert (Ho : doi_overlap (extract_dois doi_link) (extract_dois nature_page) = true).
  { rewrite extract_dois_doi_link, extract_dois_nature_page.
    apply bool_decide_eq_true. set_solver. }
  assert (Ho' : doi_overlap (extract_dois nature_page) (extract_dois doi_link) = true).
  { rewrite extract_dois_doi_link, extract_dois_nature_page.
    apply bool_decide_eq_true. set_solver. }
  split; apply merge_news_overlap; unfold has_url, dois_of;
    rewrite ?Gx, ?Gy; auto; discriminate.
Qed.

Lemma merge_news_dedup_by_doi_witness :
  (merge_news [item_with_url "2024-01-01" "https://doi.org/10.1038/s41586-1"]
              [item_with_url "2024-02-01" "https://www.nature.com/articles/s41586-1"]).1
  = [item_with_url "2024-01-01" "https://doi.org/10.1038/s41586-1"]
  /\ (merge_news [item_with_url "2024-02-01" "https://www.nature.com/articles/s41586-1"]
                 [item_with_url "2024-01-01" "https://doi.org/10.1038/s41586-1"]).1
     = [item_with_url "2024-02-01" "https://www.nature.com/articles/s41586-1"].
Proof.
  apply (merge_news_dedup_by_doi
           (item_with_url "2024-01-01" "https://doi.org/10.1038/s41586-1")
           (item_with_url "2024-02-01" "https://www.nature.com/articles/s41586-1"));
    reflexivity.
Defined.

(** ** DOI extraction *)

Lemma plus_close_sound cls st s x :
  Re.rep cls Re.Greedy (Re.match_items [Re.GroupClose] st) 1 None s = Some x ->
  exists c s', s = c :: s' /\ cls c = true.
Proof.
  intros H. apply rep_sound in H as (m & t & -> & Hm & Hl & _).
  destruct Hm as [|c m Hc Hm]; [simpl in Hl; lia|]. now exists c, (m ++ t).
Qed.

Lemma plus_close_complete cls st c s :
  cls c = true ->
  is_Some (Re.rep cls Re.Greedy (Re.match_items [Re.GroupClose] st) 1 None (c :: s)).
Proof.
  intros Hc. apply (rep_complete cls Re.Greedy _ 1 None [c] s).
  - now repeat constructor.
  - simpl. lia.
  - exact I.
  - simpl. eauto.
Qed.

(** A literal, then the group: a second literal and one or more
    characters of a class. *)
Lemma lit_group_match (w w2 : str) cls st s :
  is_Some (Re.match_items
             (Re.escape w ++ [Re.GroupOpen] ++ Re.escape w2
              ++ [Re.plus cls; Re.GroupClose]) st s)
  <-> exists c rest, s = w ++ w2 ++ c :: rest /\ cls c = true.
Proof.
  rewrite match_escape.
  destruct (strip_prefix w s) as [t|] eqn:Et.
  - apply strip_prefix_Some in Et as ->.
    change (Re.match_items ([Re.GroupOpen] ++ Re.escape w2
                            ++ [Re.plus cls; Re.GroupClose]) st t)
      with (Re.match_items (Re.escape w2 ++ [Re.plus cls; Re.GroupClose])
              (Re.open_group st t) t).
    rewrite match_escape.
    destruct (strip_prefix w2 t) as [u|] eqn:Eu.
    + apply strip_prefix_Some in Eu as ->.
      change (Re.match_items [Re.plus cls; Re.GroupClose]
                (Re.open_group st (w2 ++ u)) u)
        with (Re.rep cls Re.Greedy
                (Re.match_items [Re.GroupClose] (Re.open_group st (w2 ++ u)))
                1 None u).
      split.
      * intros [x Hx]. apply plus_close_sound in Hx as (c & s' & -> & Hc).
        now exists c, s'.
      * intros (c & rest & E & Hc).
        apply app_inv_head in E. apply app_inv_head in E. subst u.
        now apply plus_close_complete.
    + split; [intros [x Hx]; discriminate|].
      intros (c & rest & E & Hc). apply app_inv_head in E. subst t.
      rewrite strip_prefix_app in Eu. discriminate.
  - split; [intros [x Hx]; discriminate|].
    intros (c & rest & -> & Hc). rewrite strip_prefix_app in Et. discriminate.
Qed.

Lemma nature_re_shape :
  nature_re = Re.escape (py "nature.com/articles/") ++ [Re.GroupOpen]
              ++ Re.escape (py "s") ++ [Re.plus nature_char; Re.GroupClose].
Proof. reflexivity. Qed.

Lemma arxiv_re_shape :
  arxiv_re = Re.escape (py "arxiv.org/abs/") ++ [Re.GroupOpen]
             ++ Re.escape [] ++ [Re.plus arxiv_char; Re.GroupClose].
Proof. reflexivity. Qed.

Lemma is_Some_match_at r s :
  is_Some (Re.match_at r s) <-> is_Some (Re.match_items r Re.no_caps s).
Proof.
  unfold Re.match_at.
  destruct (Re.match_items r Re.no_caps s) as [[st rest]|]; split; eauto;
    intros [x Hx]; discriminate.
Qed.

Lemma no_match_iff r s :
  no_match r s <-> ~ exists p t, s = p ++ t /\ is_Some (Re.match_at r t).
Proof.
  split.
  - intros H (p & t & -> & [x Hx]). rewrite (H p t eq_refl) in Hx. discriminate.
  - intros H p t ->. destruct (Re.match_at r t) eqn:E; [|reflexivity].
    destruct H. exists p, t. eauto.
Qed.

Lemma search_nature_None url :
  Re.search nature_re url = None <-> ~ nature_like url.
Proof.
  rewrite search_None, no_match_iff. apply not_iff_compat.
  split.
  - intros (p & t & -> & H).
    rewrite is_Some_match_at, nature_re_shape, lit_group_match in H.
    destruct H as (c & rest & -> & Hc). now exists p, c, rest.
  - intros (pre & c & post & -> & Hc).
    exists pre, (py "nature.com/articles/s" ++ c :: post). split; [reflexivity|].
    rewrite is_Some_match_at, nature_re_shape, lit_group_match.
    now exists c, post.
Qed.

Lemma search_arxiv_None url :
  Re.search arxiv_re url = None <-> ~ arxiv_like url.
Proof.
  rewrite search_None, no_match_iff. apply not_iff_compat.
  split.
  - intros (p & t & -> & H).
    rewrite is_Some_match_at, arxiv_re_shape, lit_group_match in H.
    destruct H as (c & rest & -> & Hc). now exists p, c, rest.
  - intros (pre & c & post & -> & Hc).
    exists pre, (py "arxiv.org/abs/" ++ c :: post). split; [reflexivity|].
    rewrite is_Some_match_at, arxiv_re_shape, lit_group_match.
    now exists c, post.
Qed.

Lemma doi_re_match st s :
  is_Some (Re.match_items doi_re st s)
  <-> exists ds run rest,
        s = py "10." ++ ds ++ "/" :: run ++ rest
        /\ all is_digit ds /\ (4 <= length ds <= 9)%nat
        /\ run <> [] /\ all doi_char run.
Proof.
  change (Re.match_items doi_re st s)
    with (Re.match_items
            (Re.escape (py "10.")
             ++ [Re.Chars is_digit 4 (Some 9) Re.Greedy; Re.chr "/";
                 Re.plus doi_char; Re.GroupClose]) (Re.open_group st s) s).
  rewrite match_escape.
  set (st1 := Re.open_group st s).
  destruct (strip_prefix (py "10.") s) as [t|] eqn:Et.
  - apply strip_prefix_Some in Et.
    change (Re.match_items [Re.Chars is_digit 4 (Some 9) Re.Greedy; Re.chr "/";
                            Re.plus doi_char; Re.GroupClose] st1 t)
      with (Re.rep is_digit Re.Greedy
              (Re.match_items [Re.chr "/"; Re.plus doi_char; Re.GroupClose] st1)
              4 (Some 9) t).
    split.
    + intros [x Hx].
      apply rep_sound in Hx as (ds & t1 & -> & Hds & Hlo & Hhi & Hk).
      rewrite match_chr in Hk. destruct t1 as [|d t2]; [discriminate|].
      destruct (Ascii.eqb "/" d) eqn:Ed; [|discriminate].
      apply Ascii.eqb_eq in Ed. subst d.
      change (Re.match_items [Re.plus doi_char; Re.GroupClose] st1 t2)
        with (Re.rep doi_char Re.Greedy (Re.match_items [Re.GroupClose] st1)
                1 None t2) in Hk.
      apply rep_sound in Hk as (run & rest & -> & Hrun & Hl & _).
      exists ds, run, rest. simpl in Hhi. repeat split; auto.
      destruct run; [simpl in Hl; lia|discriminate].
    + intros (ds & run & rest & E & Hds & [Hlo Hhi] & Hne & Hrun).
      rewrite E in Et. apply app_inv_head in Et. subst t.
      apply rep_complete; [exact Hds|exact Hlo|exact Hhi|].
      rewrite match_chr, Ascii.eqb_refl.
      change (Re.match_items [Re.plus doi_char; Re.GroupClose] st1 (run ++ rest))
        with (Re.rep doi_char Re.Greedy (Re.match_items [Re.GroupClose] st1)
                1 None (run ++ rest)).
      apply rep_complete;
        [exact Hrun|destruct run; [now destruct Hne|simpl; lia]|exact I
        |simpl; eauto].
  - split; [intros [x Hx]; discriminate|].
    intros (ds & run & rest & -> & _). rewrite strip_prefix_app in Et. discriminate.
Qed.

Lemma search_doi_None url :
  Re.search doi_re url = None <-> ~ doi_like url.
Proof.
  rewrite search_None, no_match_iff. apply not_iff_compat.
  split.
  - intros (p & t & -> & H).
    rewrite is_Some_match_at, doi_re_match in H.
    destruct H as (ds & run & rest & -> & H). now exists p, ds, run, rest.
  - intros (pre & ds & run & post & -> & H).
    exists pre, (py "10." ++ ds ++ "/" :: run ++ post). split; [reflexivity|].
    rewrite is_Some_match_at, doi_re_match. now exists ds, run, post.
Qed.

(** C5, as stated, fails: the address of a Nature article page has no
    DOI-like substring, and a DOI is extracted from it all the same. *)
Lemma extract_dois_nature_nonempty : ~ empty_without_doi nature_page.
Proof.
  intros H.
  assert (Hn : ~ doi_like nature_page)
    by (apply search_doi_None; vm_compute; reflexivity).
  specialize (H Hn). rewrite extract_dois_nature_page in H.
  assert (Hin : py "10.1038/s41586-1" ∈ (∅ : gset str))
    by (rewrite <- H; now apply elem_of_singleton).
  now apply elem_of_empty in Hin.
Qed.

(** C5, amended.  DOI extraction is total; it returns the empty set for
    the empty string, and for every URL that has no DOI-like substring
    and is neither a Nature article page nor an arXiv abstract page. *)
Theorem extract_dois_empty (url : str) :
  extract_dois [] = ∅
  /\ (~ doi_like url -> ~ nature_like url -> ~ arxiv_like url ->
      extract_dois url = ∅).
Proof.
  split; [reflexivity|].
  intros Hd Hn Ha. unfold extract_dois.
  destruct (negb (truthy (Some url))); [reflexivity|].
  apply search_doi_None, search_None, finditer_no_match in Hd.
  apply search_nature_None in Hn. apply search_arxiv_None in Ha.
  rewrite Hd, Hn, Ha. reflexivity.
Qed.

Lemma extract_dois_empty_witness :
  extract_dois (py "https://x.org/new") = ∅.
Proof.
  apply (proj2 (extract_dois_empty (py "https://x.org/new"))).
  - apply search_doi_None. vm_compute. reflexivity.
  - apply search_nature_None. vm_compute. reflexivity.
  - apply search_arxiv_None. vm_compute. reflexivity.
Defined.

(** ** DOI normalization *)

Lemma lower_char_idem c : lower_char (lower_char c) = lower_char c.
Proof. destruct c as [[] [] [] [] [] [] [] []]; reflexivity. Qed.

Lemma lstrip_by_In p s c : In c (lstrip_by p s) -> In c s.
Proof.
  induction s as [|d s IH]; simpl; [auto|].
  destruct (p d); [auto|]. simpl. auto.
Qed.

Lemma rstrip_by_In p s c : In c (rstrip_by p s) -> In c s.
Proof.
  unfold rstrip_by. rewrite <- in_rev. intros H. apply lstrip_by_In in H.
  now rewrite <- in_rev in H.
Qed.

Lemma lstrip_by_length p s : (length (lstrip_by p s) <= length s)%nat.
Proof.
  induction s as [|d s IH]; simpl; [lia|]. destruct (p d); simpl; lia.
Qed.

Lemma rstrip_by_length p s : (length (rstrip_by p s) <= length s)%nat.
Proof.
  unfold rstrip_by. rewrite length_rev.
  etransitivity; [apply lstrip_by_length|]. now rewrite length_rev.
Qed.

Lemma rstrip_snoc_hit p s c :
  p c = true -> rstrip_by p (s ++ [c]) = rstrip_by p s.
Proof. intros H. unfold rstrip_by. rewrite rev_app_distr. simpl. now rewrite H. Qed.

Lemma rstrip_snoc_miss p s c :
  p c = false -> rstrip_by p (s ++ [c]) = s ++ [c].
Proof.
  intros H. unfold rstrip_by. rewrite rev_app_distr. simpl. rewrite H.
  change (c :: rev s) with ([c] ++ rev s).
  now rewrite rev_app_distr, rev_involutive.
Qed.

Lemma rstrip_fixed s : ~ ends_with_slash s -> rstrip "/" s = s.
Proof.
  intros H. destruct s as [|c s] using rev_ind; [reflexivity|].
  apply rstrip_snoc_miss. destruct (Ascii.eqb "/" c) eqn:E; [|reflexivity].
  apply Ascii.eqb_eq in E. subst c. destruct H. now exists s.
Qed.

Lemma rstrip_shrinks s :
  ends_with_slash s -> (length (rstrip "/" s) < length s)%nat.
Proof.
  intros [p ->]. unfold rstrip. rewrite rstrip_snoc_hit by reflexivity.
  rewrite length_app. simpl. pose proof (rstrip_by_length (Ascii.eqb "/") p). lia.
Qed.

Section SubEmpty.
Context (r : Re.regex).

Lemma sub_from_erase_In n s c : In c (Re.sub_from r erase n s) -> In c s.
Proof.
  revert n. induction s as [|d s IH]; intros n; simpl.
  - destruct n; simpl; [|auto]. now destruct (Re.match_at r []).
  - destruct n as [|n]; [|intros H; right; eauto].
    destruct (Re.match_at r (d :: s)) as [m|]; simpl.
    + destruct (length (Re.m_text m)); simpl; intros H.
      * destruct H as [H|H]; [now left|right; eauto].
      * right; eauto.
    + intros [H|H]; [now left|right; eauto].
Qed.

Lemma sub_from_erase_length n s : (length (Re.sub_from r erase n s) <= length s)%nat.
Proof.
  revert n. induction s as [|d s IH]; intros n; simpl.
  - destruct n; simpl; [|lia]. now destruct (Re.match_at r []).
  - destruct n as [|n]; [|specialize (IH n); lia].
    destruct (Re.match_at r (d :: s)) as [m|]; simpl.
    + destruct (length (Re.m_text m)) as [|k]; simpl.
      * specialize (IH 0%nat). lia.
      * specialize (IH k). lia.
    + specialize (IH 0%nat). lia.
Qed.

Lemma sub_erase_shrinks s :
  (forall t m, Re.match_at r t = Some m -> Re.m_text m <> []) ->
  ~ no_match r s ->
  (length (Re.sub_with r erase s) < length s)%nat.
Proof.
  intros Hne. unfold Re.sub_with. induction s as [|d s IH]; intros Hn; simpl.
  - destruct (Re.match_at r []) as [m|] eqn:E.
    + pose proof (Hne _ _ E) as Hm. apply match_at_text in E.
      destruct (Re.m_text m); [now destruct Hm|discriminate].
    + destruct Hn. intros p t Hpt. symmetry in Hpt.
      apply app_eq_nil in Hpt as [-> ->]. exact E.
  - destruct (Re.match_at r (d :: s)) as [m|] eqn:E; simpl.
    + pose proof (Hne _ _ E) as Hm.
      destruct (length (Re.m_text m)) as [|k] eqn:El.
      * destruct (Re.m_text m); [now destruct Hm|discriminate].
      * pose proof (sub_from_erase_length k s). lia.
    + assert (Hs : ~ no_match r s).
      { intros H. apply Hn. intros [|c p] t Hpt; simpl in Hpt.
        - now subst.
        - injection Hpt as -> ->. now apply (H p). }
      specialize (IH Hs). lia.
Qed.
End SubEmpty.

Lemma version_re_match st s :
  is_Some (Re.match_items version_re st s)
  <-> exists ds tail,
        s = "v" :: ds ++ tail
        /\ ds <> [] /\ all is_digit ds /\ (tail = [] \/ tail = ["010"]).
Proof.
  unfold version_re. rewrite match_chr.
  destruct s as [|c s].
  { split; [intros [x Hx]; discriminate|]. intros (ds & tail & H & _). discriminate. }
  destruct (Ascii.eqb "v" c) eqn:Ec.
  - apply Ascii.eqb_eq in Ec. subst c.
    change (Re.match_items [Re.plus is_digit; Re.Eos] st s)
      with (Re.rep is_digit Re.Greedy (Re.match_items [Re.Eos] st) 1 None s).
    split.
    + intros [x Hx]. apply rep_sound in Hx as (ds & tail & -> & Hds & Hl & _ & Hk).
      exists ds, tail. split; [reflexivity|].
      split; [destruct ds; [simpl in Hl; lia|discriminate]|].
      split; [exact Hds|].
      simpl in Hk. destruct tail as [|e [|e' tail]]; simpl in Hk; auto.
      * destruct (Ascii.eqb e "010") eqn:Ee; [|discriminate].
        apply Ascii.eqb_eq in Ee. subst. now right.
      * discriminate.
    + intros (ds & tail & [= ->] & Hne & Hds & Ht).
      apply rep_complete;
        [exact Hds|destruct ds; [now destruct Hne|simpl; lia]|exact I|].
      destruct Ht as [-> | ->]; simpl; eauto.
  - apply Ascii.eqb_neq in Ec.
    split; [intros [x Hx]; discriminate|].
    intros (ds & tail & [= -> _] & _). now destruct Ec.
Qed.

Lemma no_match_version s : no_match version_re s <-> ~ has_version_suffix s.
Proof.
  rewrite no_match_iff. apply not_iff_compat. split.
  - intros (p & t & -> & H). rewrite is_Some_match_at, version_re_match in H.
    destruct H as (ds & tail & -> & H). now exists p, ds, tail.
  - intros (p & ds & tail & -> & H). exists p, ("v" :: ds ++ tail).
    split; [reflexivity|]. rewrite is_Some_match_at, version_re_match.
    now exists ds, tail.
Qed.

Lemma normalize_doi_lower x : lower (normalize_doi x) = normalize_doi x.
Proof.
  assert (H : Forall (fun c => lower_char c = c) (normalize_doi x)).
  { apply List.Forall_forall. intros c Hc. unfold normalize_doi, sub_literal in Hc.
    apply sub_from_erase_In, rstrip_by_In in Hc.
    unfold lower in Hc. apply in_map_iff in Hc as (d & <- & _).
    apply lower_char_idem. }
  unfold lower. induction H as [|c l Hc Hl IH]; simpl; [reflexivity|].
  now rewrite Hc, IH.
Qed.

Lemma normalize_doi_length x : (length (normalize_doi x) <= length x)%nat.
Proof.
  unfold normalize_doi, sub_literal.
  etransitivity; [apply sub_from_erase_length|].
  etransitivity; [apply rstrip_by_length|].
  unfold lower. now rewrite length_map.
Qed.

(** C2, as stated, fails: of two stacked version suffixes each pass
    removes one. *)
Lemma normalize_doi_not_idempotent :
  normalize_doi (normalize_doi (py "10.1101/abcv1v2"))
  <> normalize_doi (py "10.1101/abcv1v2").
Proof. vm_compute. discriminate. Qed.

(** C2, amended.  A second normalization changes nothing exactly when
    the normalized form does not itself end with a slash or with a
    version suffix. *)
Theorem normalize_doi_idempotent_iff (x : str) :
  normalize_doi (normalize_doi x) = normalize_doi x
  <-> ~ ends_with_slash (normalize_doi x)
      /\ ~ has_version_suffix (normalize_doi x).
Proof.
  set (y := normalize_doi x).
  assert (Hl : lower y = y) by apply normalize_doi_lower.
  assert (Hy : normalize_doi y = sub_literal version_re [] (rstrip "/" y))
    by (unfold normalize_doi at 1; now rewrite Hl).
  split.
  - intros E.
    assert (Hs : ~ ends_with_slash y).
    { intros H. apply rstrip_shrinks in H.
      pose proof (sub_from_erase_length version_re 0 (rstrip "/" y)) as Hs.
      unfold erase in Hs.
      rewrite Hy in E. unfold sub_literal, Re.sub_with in E. rewrite E in Hs. lia. }
    split; [exact Hs|]. intros H.
    rewrite rstrip_fixed in Hy by exact Hs.
    assert (Hlt : (length (sub_literal version_re [] y) < length y)%nat).
    { apply sub_erase_shrinks.
      - intros t m. apply match_at_chr_nonempty.
      - now rewrite no_match_version. }
    rewrite <- Hy, E in Hlt. lia.
  - intros [Hs Hv]. rewrite Hy, rstrip_fixed by exact Hs.
    apply sub_no_match. now apply no_match_version.
Qed.

Lemma normalize_doi_idempotent_iff_witness :
  normalize_doi (normalize_doi (py "10.1101/2023.01.01.522222v1/"))
  = normalize_doi (py "10.1101/2023.01.01.522222v1/").
Proof.
  apply (proj2 (normalize_doi_idempotent_iff (py "10.1101/2023.01.01.522222v1/"))).
  split.
  - intros [p H]. vm_compute in H.
    apply (f_equal (@rev ascii)) in H. rewrite rev_app_distr in H.
    discriminate H.
  - apply no_match_version, search_None. vm_compute. reflexivity.
Defined.

Lemma merge_news_no_duplicate_auto_witness :
  exists kept,
    sublist kept [item_with_url "2024-02-01" "https://www.nature.com/articles/s41586-1";
                  item_with_url "2023-06-01" "https://x.org/new"]
    /\ (merge_news [nature_doi_item]
          [item_with_url "2024-02-01" "https://www.nature.com/articles/s41586-1";
           item_with_url "2023-06-01" "https://x.org/new"]).1
       ≡ₚ [nature_doi_item] ++ kept
    /\ Forall has_url kept
    /\ forall i j x y,
         (i < j)%nat -> (length [nature_doi_item] <= j)%nat ->
         ([nature_doi_item] ++ kept) !! i = Some x ->
         ([nature_doi_item] ++ kept) !! j = Some y ->
         (has_url x -> trimmed x <> trimmed y) /\ dois_of x ## dois_of y.
Proof.
  exact (merge_news_no_duplicate_auto [nature_doi_item]
           [item_with_url "2024-02-01" "https://www.nature.com/articles/s41586-1";
            item_with_url "2023-06-01" "https://x.org/new"]).
Defined.

(** ** The renderer *)

Lemma render_news_html_shape items :
  exists body,
    render_news_html items
    = first_line_html ++ ["010"] ++ body ++ ["010"] ++ last_line_html.
Proof.
  unfold render_news_html. cbv zeta. fold first_line_html last_line_html.
  set (mid := map render_item items).
  set (l1 := py "                <div class=" ++ [dquote] ++ py "news" ++ [dquote] ++ py ">").
  set (l2 := py "                    <h2>News</h2>").
  set (l3 := py "                    <ul>").
  set (l4 := py "                    </ul>").
  set (l5 := py "                </div>").
  assert (E : [first_line_html; l1; l2; l3] ++ mid ++ [l4; l5; last_line_html]
              = first_line_html :: l1
                  :: ((l2 :: l3 :: mid ++ [l4]) ++ [l5; last_line_html])).
  { simpl. now rewrite <- app_assoc. }
  rewrite E, join_cons.
  change (l1 :: (l2 :: l3 :: mid ++ [l4]) ++ [l5; last_line_html])
    with ((l1 :: l2 :: l3 :: mid ++ [l4]) ++ [l5; last_line_html]).
  rewrite join_snoc.
  now exists (join ["010"] ((l1 :: l2 :: l3 :: mid ++ [l4]) ++ [l5])).
Qed.

(** C10.  For every item list, the empty one included, the first line of
    the rendered fragment contains the start marker and its last line
    contains the end marker; the fragment therefore has a span between
    the markers, and in any document that contains the fragment the
    patcher finds the markers again on the next run. *)
Theorem render_news_html_markers (items : list NewsItem) :
  (exists first, head (lines (render_news_html items)) = Some first
                 /\ contains MARKER_START first)
  /\ (exists final, last (lines (render_news_html items)) = Some final
                    /\ contains MARKER_END final)
  /\ has_span (render_news_html items)
  /\ forall before after,
       is_Some (Re.search marker_re (before ++ render_news_html items ++ after)).
Proof.
  destruct (render_news_html_shape items) as [body E].
  assert (Hs : contains MARKER_START first_line_html)
    by (exists (py "                "), []; reflexivity).
  assert (He : contains MARKER_END last_line_html)
    by (exists (py "                "), []; reflexivity).
  assert (Hspan : has_span (render_news_html items)).
  { exists (py "                "), (["010"] ++ body ++ ["010"] ++ py "                "), [].
    rewrite E. unfold first_line_html, last_line_html, MARKER_START, MARKER_END.
    change (py "                <!-- NEWS_START -->")
      with (py "                " ++ py "<!-- NEWS_START -->").
    change (py "                <!-- NEWS_END -->")
      with (py "                " ++ py "<!-- NEWS_END -->").
    rewrite <- !app_assoc. rewrite app_nil_r. reflexivity. }
  split; [|split; [|split]].
  - exists first_line_html. split; [|exact Hs].
    unfold lines. rewrite E. simpl ([_] ++ _).
    rewrite split_line; [reflexivity|].
    vm_compute. intuition discriminate.
  - exists last_line_html. split; [|exact He].
    unfold lines. rewrite E.
    replace (first_line_html ++ ["010"] ++ body ++ ["010"] ++ last_line_html)
      with ((first_line_html ++ ["010"] ++ body) ++ "010" :: last_line_html)
      by (now rewrite <- !app_assoc).
    apply split_last_line. vm_compute. intuition discriminate.
  - exact Hspan.
  - intros before after.
    destruct (Re.search marker_re (before ++ render_news_html items ++ after))
      eqn:Es; [eauto|].
    apply search_marker_None in Es. destruct Es.
    destruct Hspan as (pre & mid & post & ->).
    exists (before ++ pre), mid, (post ++ after).
    now rewrite <- !app_assoc.
Qed.

(** ** No pattern of the script matches the empty string *)

Lemma match_items_chr_shorter c r st s st' rest :
  Re.match_items (Re.chr c :: r) st s = Some (st', rest) ->
  (length rest < length s)%nat.
Proof.
  rewrite match_chr. destruct s as [|d s]; [discriminate|].
  destruct (Ascii.eqb c d); [|discriminate].
  intros H. apply match_items_suffix in H as (x & ->).
  simpl. rewrite length_app. lia.
Qed.

Lemma match_at_shorter_nonempty r s m :
  (forall st' rest, Re.match_items r Re.no_caps s = Some (st', rest) ->
                    (length rest < length s)%nat) ->
  Re.match_at r s = Some m -> Re.m_text m <> [].
Proof.
  intros H. unfold Re.match_at.
  destruct (Re.match_items r Re.no_caps s) as [[st rest]|] eqn:E; [|discriminate].
  intros [= <-]. simpl. specialize (H _ _ eq_refl).
  apply match_items_suffix in E as (x & ->).
  rewrite consumed_app. rewrite length_app in H.
  destruct x; [simpl in H; lia|discriminate].
Qed.

Lemma script_patterns_nonempty r s m :
  In r [version_re; doi_re; nature_re; arxiv_re; marker_re] ->
  Re.match_at r s = Some m -> Re.m_text m <> [].
Proof.
  intros Hr. apply match_at_shorter_nonempty. intros st' rest.
  destruct Hr as [<-|[<-|[<-|[<-|[<-|[]]]]]]; apply match_items_chr_shorter.
Qed.

(** ** More on the matcher: greedy runs and the first match *)

(** A greedy repetition takes the whole run of the class when the
    continuation accepts what follows it. *)
Lemma rep_greedy_max {R} cls (k : str -> option R) lo hi m t x :
  all cls m ->
  match t with [] => True | c :: _ => cls c = false end ->
  (lo <= length m)%nat -> within hi (length m) ->
  k t = Some x ->
  Re.rep cls Re.Greedy k lo hi (m ++ t) = Some x.
Proof.
  intros Hm Ht. revert lo hi.
  induction Hm as [|c m Hc Hm IH]; intros lo hi Hlo Hhi Hk; simpl in *.
  - assert (lo = 0%nat) as -> by lia.
    destruct t as [|c t]; simpl; [exact Hk|]. now rewrite Ht.
  - assert (Hr : Re.room hi = true) by (destruct hi as [[|h]|]; simpl in *; auto; lia).
    rewrite Hc, Hr. simpl. rewrite IH; auto; [lia|].
    destruct hi as [h|]; simpl in *; auto. lia.
Qed.

Lemma match_at_chr_mismatch c r d s :
  c <> d -> Re.match_at (Re.chr c :: r) (d :: s) = None.
Proof.
  intros H. unfold Re.match_at. rewrite match_chr.
  apply Ascii.eqb_neq in H. now rewrite H.
Qed.

Lemma search_first_match r pre s m :
  (forall p q, pre = p ++ q -> q <> [] -> Re.match_at r (q ++ s) = None) ->
  Re.match_at r s = Some m ->
  Re.search r (pre ++ s) = Some m.
Proof.
  intros Hpre Hm. induction pre as [|c pre IH]; simpl.
  - destruct s; simpl; now rewrite Hm.
  - pose proof (Hpre [] (c :: pre) eq_refl) as Hc. simpl in Hc.
    rewrite Hc by discriminate. apply IH.
    intros p q -> Hq. apply (Hpre (c :: p)); auto.
Qed.

Lemma finditer_first_match r pre s m :
  (forall p q, pre = p ++ q -> q <> [] -> Re.match_at r (q ++ s) = None) ->
  Re.match_at r s = Some m ->
  In m (Re.finditer r (pre ++ s)).
Proof.
  unfold Re.finditer. intros Hpre Hm. induction pre as [|c pre IH]; simpl.
  - destruct s; simpl; rewrite Hm; now left.
  - pose proof (Hpre [] (c :: pre) eq_refl) as Hc. simpl in Hc.
    rewrite Hc by discriminate. apply IH.
    intros p q -> Hq. apply (Hpre (c :: p)); auto.
Qed.

(** ** More on DOI normalization *)

Lemma lower_app a b : lower (a ++ b) = lower a ++ lower b.
Proof. apply map_app. Qed.

Lemma lower_digits ds : all is_digit ds -> lower ds = ds.
Proof.
  induction 1 as [|c ds Hc Hds IH]; [reflexivity|].
  unfold lower in *. simpl. rewrite IH. f_equal.
  revert Hc. destruct c as [[] [] [] [] [] [] [] []]; vm_compute; congruence.
Qed.

Lemma is_digit_not_v c : is_digit c = true -> c <> "v".
Proof. intros H ->. discriminate H. Qed.

Lemma version_suffix_removed p ds :
  ds <> [] -> all is_digit ds ->
  sub_literal version_re [] (p ++ "v" :: ds) = p.
Proof.
  intros Hne Hds. unfold sub_literal.
  assert (Hm : Re.match_at version_re ("v" :: ds)
               = Some {| Re.m_text := "v" :: ds; Re.m_group1 := None;
                         Re.m_rest := [] |}).
  { unfold Re.match_at, version_re. rewrite match_chr, Ascii.eqb_refl.
    change (Re.match_items [Re.plus is_digit; Re.Eos] Re.no_caps ds)
      with (Re.rep is_digit Re.Greedy (Re.match_items [Re.Eos] Re.no_caps)
              1 None ds).
    assert (Hrep : Re.rep is_digit Re.Greedy (Re.match_items [Re.Eos] Re.no_caps)
                     1 None (ds ++ []) = Some (Re.no_caps, [])).
    { apply rep_greedy_max;
        [exact Hds|exact I|destruct ds; [now destruct Hne|simpl; lia]|exact I
        |reflexivity]. }
    rewrite app_nil_r in Hrep. rewrite Hrep.
    pose proof (consumed_app ("v" :: ds) []) as Hc. rewrite app_nil_r in Hc.
    now rewrite Hc. }
  assert (Hp : forall p1 q, p = p1 ++ q -> q <> [] ->
                 Re.match_at version_re (q ++ "v" :: ds) = None).
  { intros p1 q -> Hq.
    destruct (Re.match_at version_re (q ++ "v" :: ds)) eqn:E; [|reflexivity].
    exfalso.
    assert (Hs : is_Some (Re.match_at version_re (q ++ "v" :: ds))) by eauto.
    rewrite is_Some_match_at, version_re_match in Hs.
    destruct Hs as (ds' & tail & E' & _ & Hds' & Ht).
    destruct q as [|c q]; [now destruct Hq|].
    injection E' as -> E'.
    assert (Hin : In "v" (ds' ++ tail))
      by (rewrite <- E'; apply in_or_app; right; now left).
    apply in_app_or in Hin as [Hin|Hin].
    + apply List.Forall_forall with (x := "v") in Hds'; [discriminate|exact Hin].
    + destruct Ht as [-> | ->]; [destruct Hin|].
      destruct Hin as [Hin|[]]. discriminate. }
  rewrite (sub_first_match version_re _ p _ _ Hp Hm); [|discriminate].
  simpl. now rewrite app_nil_r.
Qed.

Lemma rstrip_digit_end s ds :
  ds <> [] -> all is_digit ds -> rstrip "/" (s ++ ds) = s ++ ds.
Proof.
  intros Hne Hds. destruct ds as [|d ds0 _] using rev_ind; [now destruct Hne|].
  rewrite app_assoc. apply rstrip_snoc_miss.
  apply Forall_app in Hds as [_ Hd]. inversion Hd as [|? ? Hd' _]; subst.
  destruct (Ascii.eqb "/" d) eqn:E; [|reflexivity].
  apply Ascii.eqb_eq in E. subst d. discriminate Hd'.
Qed.

(** X1.  On strings of code points 0..255 (the type [str], on which
    [str.lower] acts character by character): a version suffix, [v] or
    [V] and one or more digits 0-9 at the very end, is removed, and what
    stands before it is lowercased and otherwise kept as it is. *)
Theorem normalize_doi_strips_version (x : str) (c : ascii) (ds : str) :
  c = "v" \/ c = "V" -> ds <> [] -> all is_digit ds ->
  normalize_doi (x ++ c :: ds) = lower x.
Proof.
  intros Hc Hne Hds. unfold normalize_doi.
  assert (El : lower (x ++ c :: ds) = lower x ++ "v" :: ds).
  { rewrite lower_app. f_equal. change (lower (c :: ds)) with (lower_char c :: lower ds).
    rewrite lower_digits by exact Hds. now destruct Hc as [-> | ->]. }
  rewrite El.
  change (lower x ++ "v" :: ds) with (lower x ++ ["v"] ++ ds).
  rewrite app_assoc, rstrip_digit_end by assumption.
  rewrite <- app_assoc. now apply version_suffix_removed.
Qed.

Lemma normalize_doi_strips_version_witness :
  normalize_doi (py "10.1101/2023.01.01.522222" ++ "V" :: py "12")
  = lower (py "10.1101/2023.01.01.522222").
Proof.
  apply normalize_doi_strips_version;
    [now right|discriminate|repeat constructor].
Defined.

Lemma rstrip_repeat c s n : rstrip c (s ++ repeat c n) = rstrip c s.
Proof.
  induction n as [|n IH]; simpl; [now rewrite app_nil_r|].
  rewrite repeat_cons, app_assoc.
  unfold rstrip in *. rewrite rstrip_snoc_hit by apply Ascii.eqb_refl.
  exact IH.
Qed.

(** X2.  Trailing slashes do not matter: a DOI followed by any number
    of slashes has the normal form of the DOI itself. *)
Theorem normalize_doi_trailing_slashes (x : str) (n : nat) :
  normalize_doi (x ++ repeat "/" n) = normalize_doi x.
Proof.
  unfold normalize_doi. rewrite lower_app.
  assert (E : lower (repeat "/" n) = repeat "/" n).
  { induction n as [|n IH]; [reflexivity|].
    change (lower (repeat "/" (S n))) with (lower_char "/" :: lower (repeat "/" n)).
    now rewrite IH. }
  now rewrite E, rstrip_repeat.
Qed.

(** X3.  On strings of code points 0..255 (the type [str], on which
    [str.lower] keeps the length): the normal form is in lower case
    (lowercasing it again changes nothing) and is never longer than the
    input. *)
Theorem normalize_doi_lower_short (x : str) :
  lower (normalize_doi x) = normalize_doi x
  /\ (length (normalize_doi x) <= length x)%nat.
Proof. split; [apply normalize_doi_lower|apply normalize_doi_length]. Qed.

(** ** Occurrences of a literal *)

Lemma occurs_contains w s : occurs w s = true <-> contains w s.
Proof.
  induction s as [|c s IH]; simpl.
  - destruct (strip_prefix w []) as [l|] eqn:E.
    + split; [|reflexivity]. intros _. apply strip_prefix_Some in E.
      now exists [], l.
    + split; [discriminate|]. intros (pre & post & H).
      symmetry in H. apply app_eq_nil in H as [-> H].
      apply app_eq_nil in H as [-> ->]. discriminate E.
  - destruct (strip_prefix w (c :: s)) as [l|] eqn:E.
    + split; [|reflexivity]. intros _. apply strip_prefix_Some in E.
      exists [], l. exact E.
    + rewrite IH. split.
      * intros (pre & post & ->). now exists (c :: pre), post.
      * intros ([|d pre] & post & H); simpl in H.
        -- apply strip_prefix_Some in H. congruence.
        -- injection H as -> ->. now exists pre, post.
Qed.

Lemma app_prefix_inside (a x w t : str) :
  a ++ x = w ++ t -> (length w <= length a)%nat -> exists a', a = w ++ a'.
Proof.
  revert a. induction w as [|c w IH]; intros a H Hl; simpl in *.
  - now exists a.
  - destruct a as [|d a]; simpl in *; [lia|].
    injection H as -> H. destruct (IH a H) as (a' & ->); [lia|]. now exists a'.
Qed.

Lemma first_at_no_prefix w pre p q rest :
  w <> [] -> first_at w pre -> pre = p ++ q -> q <> [] ->
  strip_prefix w (q ++ w ++ rest) = None.
Proof.
  intros Hw Hf -> Hq.
  destruct (strip_prefix w (q ++ w ++ rest)) as [t|] eqn:E; [|reflexivity].
  exfalso. apply strip_prefix_Some in E.
  assert (Hd : w = removelast w ++ [List.last w "000"]) by now apply app_removelast_last.
  rewrite Hd in E at 1. rewrite <- !app_assoc in E.
  rewrite (app_assoc q) in E.
  apply app_prefix_inside in E as (a' & Ha).
  - unfold first_at in Hf.
    assert (Hc : contains w ((p ++ q) ++ removelast w)).
    { exists p, a'. now rewrite <- app_assoc, Ha. }
    apply occurs_contains in Hc. congruence.
  - rewrite length_app. rewrite Hd at 1. rewrite length_app. simpl.
    destruct q; [now destruct Hq|simpl; lia].
Qed.

(** ** DOIs found in a URL *)

Lemma doi_re_unfold s :
  Re.match_items doi_re Re.no_caps s
  = match strip_prefix (py "10.") s with
    | Some t =>
        Re.rep is_digit Re.Greedy
          (Re.match_items [Re.chr "/"; Re.plus doi_char; Re.GroupClose]
             (Re.open_group Re.no_caps s)) 4 (Some 9) t
    | None => None
    end.
Proof.
  change (Re.match_items doi_re Re.no_caps s)
    with (Re.match_items
            (Re.escape (py "10.")
             ++ [Re.Chars is_digit 4 (Some 9) Re.Greedy; Re.chr "/";
                 Re.plus doi_char; Re.GroupClose])
            (Re.open_group Re.no_caps s) s).
  rewrite match_escape. reflexivity.
Qed.

Lemma doi_match_full d :
  doi_shaped d ->
  Re.match_at doi_re d
  = Some {| Re.m_text := d; Re.m_group1 := Some d; Re.m_rest := [] |}.
Proof.
  intros (ds & s & -> & Hds & [Hlo Hhi] & Hne & Hs).
  unfold Re.match_at. rewrite doi_re_unfold, strip_prefix_app.
  set (d := py "10." ++ ds ++ "/" :: s).
  set (st1 := Re.open_group Re.no_caps d).
  assert (Hc : Re.consumed d [] = d).
  { pose proof (consumed_app d []) as H. now rewrite app_nil_r in H. }
  assert (Hk : Re.match_items [Re.chr "/"; Re.plus doi_char; Re.GroupClose] st1
                 ("/" :: s) = Some (Re.close_group st1 [], [])).
  { rewrite match_chr, Ascii.eqb_refl.
    change (Re.match_items [Re.plus doi_char; Re.GroupClose] st1 s)
      with (Re.rep doi_char Re.Greedy (Re.match_items [Re.GroupClose] st1)
              1 None s).
    rewrite <- (app_nil_r s) at 1.
    apply rep_greedy_max;
      [exact Hs|exact I|destruct s; [now destruct Hne|simpl; lia]|exact I
      |reflexivity]. }
  assert (Hrep : Re.rep is_digit Re.Greedy
                   (Re.match_items [Re.chr "/"; Re.plus doi_char; Re.GroupClose] st1)
                   4 (Some 9) (ds ++ "/" :: s) = Some (Re.close_group st1 [], [])).
  { apply rep_greedy_max; [exact Hds|reflexivity|exact Hlo|exact Hhi|exact Hk]. }
  rewrite Hrep. simpl. now rewrite Hc.
Qed.

Lemma doi_no_match_before pre d :
  first_at (py "10.") pre -> doi_shaped d ->
  forall p q, pre = p ++ q -> q <> [] -> Re.match_at doi_re (q ++ d) = None.
Proof.
  intros Hf (ds & s & -> & _) p q Hp Hq.
  unfold Re.match_at. rewrite doi_re_unfold.
  now rewrite (first_at_no_prefix (py "10.") pre p q) by (auto; discriminate).
Qed.

Lemma fold_union_in (f : nat -> str) (l : list nat) (acc : gset str) (x : str) :
  x ∈ fold_left (fun dois i => dois ∪ {[ f i ]}) l acc
  <-> x ∈ acc \/ exists i, In i l /\ x = f i.
Proof.
  revert acc. induction l as [|i l IH]; intros acc; simpl.
  - split; [now left|]. intros [H|(i & [] & _)]. exact H.
  - rewrite IH, elem_of_union, elem_of_singleton. split.
    + intros [[H| ->]|(j & Hj & ->)]; eauto.
    + intros [H|(j & [<-|Hj] & ->)]; eauto.
Qed.

Lemma add_prefixes_in (n : str) (dois : gset str) (x : str) :
  x ∈ add_prefixes n dois
  <-> x ∈ dois
      \/ exists i, (2 <= i < length (split "/" n))%nat
                   /\ x = join ["/"] (take i (split "/" n)).
Proof.
  unfold add_prefixes. rewrite fold_union_in. apply or_iff_compat_l.
  split; intros (i & Hi & ->); exists i; (split; [|reflexivity]).
  - apply in_seq in Hi. lia.
  - apply in_seq. lia.
Qed.

Lemma doi_loop_in (ms : list Re.rmatch) (acc : gset str) (x : str) :
  x ∈ fold_left
        (fun dois m =>
           let raw := group1 m in
           let normalized := normalize_doi raw in
           add_prefixes normalized (dois ∪ {[ normalized ]})) ms acc
  <-> x ∈ acc
      \/ exists m, In m ms
           /\ (x = normalize_doi (group1 m)
               \/ exists i,
                    (2 <= i < length (split "/" (normalize_doi (group1 m))))%nat
                    /\ x = join ["/"] (take i (split "/" (normalize_doi (group1 m))))).
Proof.
  revert acc. induction ms as [|m ms IH]; intros acc; simpl.
  - split; [now left|]. intros [H|(m & [] & _)]. exact H.
  - rewrite IH, add_prefixes_in, elem_of_union, elem_of_singleton. split.
    + intros [[[H|H]|H]|(m' & Hm & H)]; eauto 7.
    + intros [H|(m' & [<-|Hm] & [H|H])]; eauto 7.
Qed.

(** The set returned for a non-empty URL, member by member. *)
Lemma extract_dois_in (url x : str) :
  url <> [] ->
  x ∈ extract_dois url
  <-> (exists m, In m (Re.finditer doi_re url)
         /\ (x = normalize_doi (group1 m)
             \/ exists i,
                  (2 <= i < length (split "/" (normalize_doi (group1 m))))%nat
                  /\ x = join ["/"] (take i (split "/" (normalize_doi (group1 m))))))
      \/ (exists m, Re.search nature_re url = Some m
                    /\ x = normalize_doi (py "10.1038/" ++ group1 m))
      \/ (exists m, Re.search arxiv_re url = Some m
                    /\ x = py "10.48550/arxiv." ++ group1 m).
Proof.
  intros Hu. unfold extract_dois.
  destruct url as [|c u]; [now destruct Hu|]. cbn [truthy negb].
  set (url := c :: u).
  destruct (Re.search arxiv_re url) as [ma|];
    destruct (Re.search nature_re url) as [mn|];
    rewrite ?elem_of_union, ?elem_of_singleton, doi_loop_in, elem_of_empty.
  - split.
    + intros [[[[]|H]|H]|H]; eauto 6.
    + intros [H|[(m & [= <-] & H)|(m & [= <-] & H)]]; eauto.
  - split.
    + intros [[[]|H]|H]; eauto 6.
    + intros [H|[(m & [=] & _)|(m & [= <-] & H)]]; eauto.
  - split.
    + intros [[[]|H]|H]; eauto 6.
    + intros [H|[(m & [= <-] & H)|(m & [=] & _)]]; eauto.
  - split.
    + intros [[]|H]; eauto.
    + intros [H|[(m & [=] & _)|(m & [=] & _)]]; eauto.
Qed.

Lemma lit_group_first w w2 cls pre run rest :
  w <> [] -> first_at w pre ->
  run <> [] -> all cls run -> stops cls rest ->
  exists m,
    Re.search
      (Re.escape w ++ [Re.GroupOpen] ++ Re.escape w2 ++ [Re.plus cls; Re.GroupClose])
      (pre ++ w ++ w2 ++ run ++ rest) = Some m
    /\ group1 m = w2 ++ run.
Proof.
  intros Hw Hf Hne Hrun Hstop.
  set (r := Re.escape w ++ [Re.GroupOpen] ++ Re.escape w2
            ++ [Re.plus cls; Re.GroupClose]).
  set (st1 := Re.open_group Re.no_caps (w2 ++ run ++ rest)).
  assert (Hm : Re.match_items r Re.no_caps (w ++ w2 ++ run ++ rest)
               = Some (Re.close_group st1 rest, rest)).
  { unfold r. rewrite match_escape, strip_prefix_app.
    change (Re.match_items ([Re.GroupOpen] ++ Re.escape w2
                            ++ [Re.plus cls; Re.GroupClose]) Re.no_caps
              (w2 ++ run ++ rest))
      with (Re.match_items (Re.escape w2 ++ [Re.plus cls; Re.GroupClose])
              st1 (w2 ++ run ++ rest)).
    rewrite match_escape, strip_prefix_app.
    change (Re.match_items [Re.plus cls; Re.GroupClose] st1 (run ++ rest))
      with (Re.rep cls Re.Greedy (Re.match_items [Re.GroupClose] st1)
              1 None (run ++ rest)).
    apply rep_greedy_max;
      [exact Hrun|exact Hstop|destruct run; [now destruct Hne|simpl; lia]
      |exact I|reflexivity]. }
  eexists. split.
  - apply search_first_match.
    + intros p q Hp Hq. unfold Re.match_at, r. rewrite match_escape.
      now rewrite (first_at_no_prefix w pre p q) by auto.
    + unfold Re.match_at. rewrite Hm. reflexivity.
  - unfold group1. simpl.
    rewrite (app_assoc w2 run rest). now rewrite consumed_app.
Qed.

Lemma class_fixed_by_lower (cls : ascii -> bool) s :
  (forall c, cls c = true -> lower_char c = c) -> all cls s -> lower s = s.
Proof.
  intros H. induction 1 as [|c s Hc Hs IH]; [reflexivity|].
  unfold lower in *. simpl. now rewrite IH, H.
Qed.

Lemma arxiv_char_lower c : arxiv_char c = true -> lower_char c = c.
Proof. destruct c as [[] [] [] [] [] [] [] []]; vm_compute; congruence. Qed.

Lemma arxiv_char_doi_char c : arxiv_char c = true -> doi_char c = true.
Proof. destruct c as [[] [] [] [] [] [] [] []]; vm_compute; congruence. Qed.

Lemma nature_char_doi_char c : nature_char c = true -> doi_char c = true.
Proof. destruct c as [[] [] [] [] [] [] [] []]; vm_compute; congruence. Qed.

Lemma all_impl (P Q : ascii -> bool) s :
  (forall c, P c = true -> Q c = true) -> all P s -> all Q s.
Proof. intros H Hs. eapply Forall_impl; [exact Hs|exact H]. Qed.

(** A character that occurs once splits the string in one way only. *)
Lemma unique_split (c : ascii) a b p r :
  ~ In c a -> ~ In c b -> a ++ c :: b = p ++ c :: r -> p = a /\ r = b.
Proof.
  revert p. induction a as [|x a IH]; intros [|y p] Ha Hb E; simpl in *.
  - now injection E as <-.
  - injection E as <- ->. destruct Hb. apply in_or_app. right. now left.
  - injection E as -> _. destruct Ha. now left.
  - injection E as -> E. destruct (IH p) as [-> ->]; auto.
Qed.

Lemma finditer_doi pre d :
  first_at (py "10.") pre -> doi_shaped d ->
  In {| Re.m_text := d; Re.m_group1 := Some d; Re.m_rest := [] |}
     (Re.finditer doi_re (pre ++ d)).
Proof.
  intros Hf Hd.
  apply finditer_first_match; [now apply doi_no_match_before|].
  now apply doi_match_full.
Qed.

Lemma search_arxiv pre id rest :
  first_at (py "arxiv.org/abs/") pre ->
  id <> [] -> all arxiv_char id -> stops arxiv_char rest ->
  exists m, Re.search arxiv_re (pre ++ py "arxiv.org/abs/" ++ id ++ rest) = Some m
            /\ group1 m = id.
Proof.
  intros Hf Hne Hid Hstop.
  exact (lit_group_first (py "arxiv.org/abs/") [] arxiv_char pre id rest
           ltac:(discriminate) Hf Hne Hid Hstop).
Qed.

Lemma search_nature pre w rest :
  first_at (py "nature.com/articles/") pre ->
  w <> [] -> all nature_char w -> stops nature_char rest ->
  exists m, Re.search nature_re
              (pre ++ py "nature.com/articles/" ++ "s" :: w ++ rest) = Some m
            /\ group1 m = "s" :: w.
Proof.
  intros Hf Hne Hw Hstop.
  exact (lit_group_first (py "nature.com/articles/") (py "s") nature_char
           pre w rest ltac:(discriminate) Hf Hne Hw Hstop).
Qed.

(** X4.  A well-formed DOI that ends the URL, with no text [10.]
    beginning before it, is found: its normal form is in the set. *)
Theorem extract_dois_finds_doi (pre d : str) :
  first_at (py "10.") pre -> doi_shaped d ->
  normalize_doi d ∈ extract_dois (pre ++ d).
Proof.
  intros Hf Hd.
  assert (Hne : pre ++ d <> []).
  { destruct Hd as (ds & s & -> & _). destruct pre; discriminate. }
  apply extract_dois_in; [exact Hne|]. left.
  exists {| Re.m_text := d; Re.m_group1 := Some d; Re.m_rest := [] |}.
  split; [now apply finditer_doi|now left].
Qed.

Lemma doi_shaped_sample : doi_shaped (py "10.1093/pnasnexus/pgae323").
Proof.
  exists (py "1093"), (py "pnasnexus/pgae323").
  split; [reflexivity|]. split; [repeat constructor|].
  split; [simpl; lia|]. split; [discriminate|repeat constructor].
Qed.

Lemma extract_dois_finds_doi_witness :
  normalize_doi (py "10.1093/pnasnexus/pgae323")
  ∈ extract_dois (py "https://doi.org/" ++ py "10.1093/pnasnexus/pgae323").
Proof.
  apply extract_dois_finds_doi; [reflexivity|exact doi_shaped_sample].
Defined.

(** X6.  The address of an arXiv abstract page yields the arXiv DOI of
    its identifier, the run of digits and dots after [arxiv.org/abs/]. *)
Theorem extract_dois_arxiv_abs (pre id rest : str) :
  first_at (py "arxiv.org/abs/") pre ->
  id <> [] -> all arxiv_char id -> stops arxiv_char rest ->
  py "10.48550/arxiv." ++ id
  ∈ extract_dois (pre ++ py "arxiv.org/abs/" ++ id ++ rest).
Proof.
  intros Hf Hne Hid Hstop.
  destruct (search_arxiv pre id rest Hf Hne Hid Hstop) as (m & Hm & Hg).
  apply extract_dois_in; [destruct pre; discriminate|].
  right. right. exists m. split; [exact Hm|]. now rewrite Hg.
Qed.

Lemma extract_dois_arxiv_abs_witness :
  py "10.48550/arxiv." ++ py "2301.12345"
  ∈ extract_dois (py "https://" ++ py "arxiv.org/abs/" ++ py "2301.12345" ++ py "v2").
Proof.
  apply extract_dois_arxiv_abs;
    [reflexivity|discriminate|repeat constructor|reflexivity].
Defined.

(** X7.  The address of a Nature article page yields the DOI
    10.1038/<article id>, normalized, for the article id that starts
    with [s] and runs over word characters, dots and hyphens. *)
Theorem extract_dois_nature_article (pre w rest : str) :
  first_at (py "nature.com/articles/") pre ->
  w <> [] -> all nature_char w -> stops nature_char rest ->
  normalize_doi (py "10.1038/" ++ "s" :: w)
  ∈ extract_dois (pre ++ py "nature.com/articles/" ++ "s" :: w ++ rest).
Proof.
  intros Hf Hne Hw Hstop.
  destruct (search_nature pre w rest Hf Hne Hw Hstop) as (m & Hm & Hg).
  apply extract_dois_in; [destruct pre; discriminate|].
  right. left. exists m. split; [exact Hm|]. now rewrite Hg.
Qed.

Lemma extract_dois_nature_article_witness :
  normalize_doi (py "10.1038/" ++ "s" :: py "41586-020-2649-2")
  ∈ extract_dois (py "https://www." ++ py "nature.com/articles/"
                  ++ "s" :: py "41586-020-2649-2" ++ py "/figures/1").
Proof.
  apply extract_dois_nature_article;
    [reflexivity|discriminate|repeat constructor|reflexivity].
Defined.

Lemma doi_overlap_true (a b : gset str) (x : str) :
  x ∈ a -> x ∈ b -> doi_overlap a b = true.
Proof.
  intros Ha Hb. unfold doi_overlap. apply bool_decide_eq_true.
  intros E. assert (H : x ∈ a ∩ b) by (apply elem_of_intersection; auto).
  rewrite E in H. now apply elem_of_empty in H.
Qed.

Lemma get_url_Some item u : url item = Some u -> get_url item = u.
Proof. unfold get_url. now intros ->. Qed.

(** Two single items that share a DOI merge into the manual one. *)
Lemma merge_news_shared_doi (m a : NewsItem) (um ua d : str) :
  url m = Some um -> url a = Some ua -> um <> [] -> ua <> [] ->
  d ∈ extract_dois um -> d ∈ extract_dois ua ->
  (merge_news [m] [a]).1 = [m].
Proof.
  intros Hm Ha Hum Hua Hdm Hda.
  apply get_url_Some in Hm, Ha.
  apply merge_news_overlap; unfold has_url, dois_of; rewrite ?Hm, ?Ha; auto.
  now apply doi_overlap_true with d.
Qed.

Lemma arxiv_doi_normal id :
  id <> [] -> all arxiv_char id ->
  normalize_doi (py "10.48550/arXiv." ++ id) = py "10.48550/arxiv." ++ id.
Proof.
  intros Hne Hid. unfold normalize_doi.
  rewrite lower_app, (class_fixed_by_lower arxiv_char id arxiv_char_lower Hid).
  change (lower (py "10.48550/arXiv.")) with (py "10.48550/arxiv.").
  assert (Hr : rstrip "/" (py "10.48550/arxiv." ++ id) = py "10.48550/arxiv." ++ id).
  { destruct id as [|c id0 _] using rev_ind; [now destruct Hne|].
    rewrite app_assoc. apply rstrip_snoc_miss.
    apply Forall_app in Hid as [_ Hc]. inversion Hc as [|? ? Hc' _]; subst.
    destruct (Ascii.eqb "/" c) eqn:E; [|reflexivity].
    apply Ascii.eqb_eq in E. subst c. discriminate Hc'. }
  rewrite Hr. apply sub_no_match, no_match_version.
  intros (p & ds & tail & E & Hds & Hdig & _).
  assert (Hv : forall s, all arxiv_char s -> ~ In "v" s).
  { intros s Hs Hin. apply List.Forall_forall with (x := "v") in Hs; [|exact Hin].
    discriminate Hs. }
  change (py "10.48550/arxiv." ++ id)
    with (py "10.48550/arxi" ++ "v" :: "." :: id) in E.
  apply unique_split in E as [_ E].
  - destruct ds as [|c ds]; [now destruct Hds|].
    injection E as -> _. inversion Hdig as [|? ? Hc _]. discriminate Hc.
  - vm_compute. intuition discriminate.
  - intros [H|H]; [discriminate H|]. now apply (Hv id).
Qed.

Lemma arxiv_doi_shaped id :
  id <> [] -> all arxiv_char id -> doi_shaped (py "10.48550/arXiv." ++ id).
Proof.
  intros Hne Hid. exists (py "48550"), (py "arXiv." ++ id).
  split; [reflexivity|]. split; [repeat constructor|].
  split; [simpl; lia|]. split; [discriminate|].
  apply Forall_app. split; [repeat constructor|].
  apply all_impl with arxiv_char; [apply arxiv_char_doi_char|exact Hid].
Qed.

(** X8.  For an identifier that is a non-empty run of digits and dots
    (an identifier with other characters, such as hep-th/9901001, is not
    covered), the arXiv abstract link of the identifier, followed by
    nothing or by text that starts with a character other than a digit
    or a dot, and the arXiv DOI link of the identifier are one entry:
    when one of the two items is the only manual item and the other the
    only auto item, the merge is the manual item alone. *)
Theorem merge_news_dedup_arxiv (x y : NewsItem) (id rest : str) :
  id <> [] -> all arxiv_char id -> stops arxiv_char rest ->
  url x = Some (py "https://arxiv.org/abs/" ++ id ++ rest) ->
  url y = Some (py "https://doi.org/10.48550/arXiv." ++ id) ->
  (merge_news [x] [y]).1 = [x] /\ (merge_news [y] [x]).1 = [y].
Proof.
  intros Hne Hid Hstop Hx Hy.
  assert (Ha : py "10.48550/arxiv." ++ id
               ∈ extract_dois (py "https://arxiv.org/abs/" ++ id ++ rest)).
  { destruct (search_arxiv (py "https://") id rest eq_refl Hne Hid Hstop)
      as (m & Hm & Hg).
    apply extract_dois_in; [discriminate|].
    right. right. exists m. split; [exact Hm|]. now rewrite Hg. }
  assert (Hd : py "10.48550/arxiv." ++ id
               ∈ extract_dois (py "https://doi.org/10.48550/arXiv." ++ id)).
  { rewrite <- arxiv_doi_normal by assumption.
    apply extract_dois_in; [discriminate|]. left.
    exists {| Re.m_text := py "10.48550/arXiv." ++ id;
              Re.m_group1 := Some (py "10.48550/arXiv." ++ id); Re.m_rest := [] |}.
    split; [|now left].
    apply (finditer_doi (py "https://doi.org/")); [reflexivity|].
    now apply arxiv_doi_shaped. }
  split; eapply merge_news_shared_doi; eauto; discriminate.
Qed.

Lemma merge_news_dedup_arxiv_witness :
  (merge_news [item_with_url "2023-02-01" "https://arxiv.org/abs/2301.12345v2"]
              [item_with_url "2023-01-30" "https://doi.org/10.48550/arXiv.2301.12345"]).1
  = [item_with_url "2023-02-01" "https://arxiv.org/abs/2301.12345v2"].
Proof.
  apply (merge_news_dedup_arxiv
           (item_with_url "2023-02-01" "https://arxiv.org/abs/2301.12345v2")
           (item_with_url "2023-01-30" "https://doi.org/10.48550/arXiv.2301.12345")
           (py "2301.12345") (py "v2"));
    [discriminate|repeat constructor|reflexivity|reflexivity|reflexivity].
Defined.

Lemma nature_doi_shaped w :
  w <> [] -> all nature_char w -> doi_shaped (py "10.1038/" ++ "s" :: w).
Proof.
  intros Hne Hw. exists (py "1038"), ("s" :: w).
  split; [reflexivity|]. split; [repeat constructor|].
  split; [simpl; lia|]. split; [discriminate|].
  constructor; [reflexivity|].
  apply all_impl with nature_char; [apply nature_char_doi_char|exact Hw].
Qed.

(** X9.  For an article id that is the letter s and a non-empty run of
    word characters, dots and hyphens (an id that does not start with s,
    such as nature12373, is not covered), the DOI link 10.1038/<id> and
    the Nature page of the id, followed by nothing or by text that
    starts with a character outside that class (so not by .pdf, which
    the pattern reads as part of the id), are one entry: when one of
    the two items is the only manual item and the other the only auto
    item, the merge is the manual item alone. *)
Theorem merge_news_dedup_nature (x y : NewsItem) (w rest : str) :
  w <> [] -> all nature_char w -> stops nature_char rest ->
  url x = Some (py "https://doi.org/10.1038/" ++ "s" :: w) ->
  url y = Some (py "https://www.nature.com/articles/" ++ "s" :: w ++ rest) ->
  (merge_news [x] [y]).1 = [x] /\ (merge_news [y] [x]).1 = [y].
Proof.
  intros Hne Hw Hstop Hx Hy.
  assert (Hd : normalize_doi (py "10.1038/" ++ "s" :: w)
               ∈ extract_dois (py "https://doi.org/10.1038/" ++ "s" :: w)).
  { apply extract_dois_in; [discriminate|]. left.
    exists {| Re.m_text := py "10.1038/" ++ "s" :: w;
              Re.m_group1 := Some (py "10.1038/" ++ "s" :: w); Re.m_rest := [] |}.
    split; [|now left].
    apply (finditer_doi (py "https://doi.org/")); [reflexivity|].
    now apply nature_doi_shaped. }
  assert (Hn : normalize_doi (py "10.1038/" ++ "s" :: w)
               ∈ extract_dois (py "https://www.nature.com/articles/" ++ "s" :: w ++ rest)).
  { destruct (search_nature (py "https://www.") w rest eq_refl Hne Hw Hstop)
      as (m & Hm & Hg).
    apply extract_dois_in; [discriminate|].
    right. left. exists m. split; [exact Hm|]. now rewrite Hg. }
  split; eapply merge_news_shared_doi; eauto; discriminate.
Qed.

Lemma merge_news_dedup_nature_witness :
  (merge_news [item_with_url "2020-09-01" "https://doi.org/10.1038/s41586-020-2649-2"]
              [item_with_url "2020-09-16"
                 "https://www.nature.com/articles/s41586-020-2649-2?x=1"]).1
  = [item_with_url "2020-09-01" "https://doi.org/10.1038/s41586-020-2649-2"].
Proof.
  apply (merge_news_dedup_nature
           (item_with_url "2020-09-01" "https://doi.org/10.1038/s41586-020-2649-2")
           (item_with_url "2020-09-16"
              "https://www.nature.com/articles/s41586-020-2649-2?x=1")
           (py "41586-020-2649-2") (py "?x=1"));
    [discriminate|repeat constructor|reflexivity|reflexivity|reflexivity].
Defined.

(** ** A DOI followed by further path segments *)

















(** ** More on the merger *)

Lemma merge_step_skip a item :
  ~ has_url item \/ covered (tracked a) item -> merge_step a item = a.
Proof.
  intros H. unfold merge_step.
  destruct (truthy (Some (get_url item))) eqn:Eu; [|reflexivity]. simpl.
  apply truthy_has_url in Eu. destruct H as [H|[H|H]]; [contradiction| |].
  - now rewrite bool_decide_eq_true_2.
  - case_bool_decide; [reflexivity|].
    destruct (doi_overlap _ _) eqn:Eo; [reflexivity|].
    apply doi_overlap_false in Eo. contradiction.
Qed.

Lemma merge_step_grows a item :
  existing_urls (tracked a) ⊆ existing_urls (tracked (merge_step a item))
  /\ existing_dois (tracked a) ⊆ existing_dois (tracked (merge_step a item)).
Proof.
  unfold merge_step.
  destruct (negb (truthy (Some (get_url item)))); [split; reflexivity|].
  case_bool_decide; [split; reflexivity|].
  destruct (doi_overlap _ _); [split; reflexivity|].
  simpl. split; apply union_subseteq_l.
Qed.

Lemma covered_mono (sn sn' : seen) item :
  existing_urls sn ⊆ existing_urls sn' -> existing_dois sn ⊆ existing_dois sn' ->
  covered sn item -> covered sn' item.
Proof.
  intros Hu Hd [H|H]; [left; now apply Hu|].
  right. intros Hdis. apply H. intros d H1 H2. apply (Hdis d H1). now apply Hd.
Qed.

Lemma merge_step_covers a item :
  has_url item -> covered (tracked (merge_step a item)) item.
Proof.
  intros Hu. unfold merge_step.
  apply truthy_has_url in Hu. rewrite Hu. simpl.
  case_bool_decide as Hin; [now left|].
  destruct (doi_overlap _ _) eqn:Eo.
  - right. unfold doi_overlap in Eo. apply bool_decide_eq_true in Eo.
    intros Hdis. apply Eo. apply disjoint_intersection_L. exact Hdis.
  - left. simpl. apply elem_of_union_r. now apply elem_of_singleton.
Qed.

Lemma fold_merge_step_grows l a :
  existing_urls (tracked a) ⊆ existing_urls (tracked (fold_left merge_step l a))
  /\ existing_dois (tracked a) ⊆ existing_dois (tracked (fold_left merge_step l a)).
Proof.
  revert a. induction l as [|item l IH]; intros a; simpl; [split; reflexivity|].
  destruct (IH (merge_step a item)) as [H1 H2].
  destruct (merge_step_grows a item) as [H3 H4].
  split; etransitivity; eauto.
Qed.

Lemma merge_loop_covers manual auto item :
  In item auto -> has_url item ->
  covered (tracked (merge_loop manual auto)) item.
Proof.
  unfold merge_loop. generalize {| merged := manual; tracked := seed manual; new_count := 0 |}.
  induction auto as [|b auto IH]; intros a Hin Hu; [destruct Hin|].
  destruct Hin as [<-|Hin]; simpl.
  - destruct (fold_merge_step_grows auto (merge_step a b)) as [H1 H2].
    eapply covered_mono; [exact H1|exact H2|]. now apply merge_step_covers.
  - now apply IH.
Qed.

Lemma tracks_covered sn l item :
  tracks sn l -> has_url item -> covered sn item ->
  exists x, x ∈ l /\ has_url x
            /\ (trimmed x = trimmed item \/ ~ dois_of x ## dois_of item).
Proof.
  intros [Hu Hd] Hi [H|H].
  - apply Hu in H as (x & Hx & H1 & H2). eauto.
  - assert (Hex : exists d, d ∈ dois_of item /\ d ∈ existing_dois sn).
    { destruct (decide (dois_of item ∩ existing_dois sn = ∅)) as [E|E].
      - destruct H. now apply disjoint_intersection_L.
      - apply set_choose_L in E as (d & Hd'). apply elem_of_intersection in Hd'.
        now exists d. }
    destruct Hex as (d & H1 & H2). apply Hd in H2 as (x & Hx & H3).
    exists x. split; [exact Hx|]. split.
    + intros E. rewrite dois_of_no_url in H3 by (intros Hx'; now apply Hx').
      now apply elem_of_empty in H3.
    + right. intros Hdis. now apply (Hdis d).
Qed.

(** X10.  No auto item is dropped without cause: every auto item that
    has a URL is in the output or is represented there by an item with
    the same trimmed URL or with a DOI in common. *)
Theorem merge_news_represents_auto (manual auto : list NewsItem) (item : NewsItem) :
  In item auto -> has_url item ->
  exists x, x ∈ (merge_news manual auto).1 /\ has_url x
            /\ (trimmed x = trimmed item \/ ~ dois_of x ## dois_of item).
Proof.
  intros Hin Hu.
  destruct (merge_loop_inv manual auto) as (kept & _ & [Hm Ht _ _]).
  destruct (tracks_covered _ _ item Ht Hu (merge_loop_covers manual auto item Hin Hu))
    as (x & Hx & H).
  exists x. split; [|exact H].
  unfold merge_news. simpl. now rewrite sort_desc_perm, Hm.
Qed.

Lemma merge_news_represents_auto_witness :
  exists x, x ∈ (merge_news [nature_doi_item]
                   [item_with_url "2024-02-01" "https://www.nature.com/articles/s41586-1"]).1
            /\ has_url x
            /\ (trimmed x
                = trimmed (item_with_url "2024-02-01"
                             "https://www.nature.com/articles/s41586-1")
                \/ ~ dois_of x
                     ## dois_of (item_with_url "2024-02-01"
                                   "https://www.nature.com/articles/s41586-1")).
Proof.
  apply merge_news_represents_auto; [now left|discriminate].
Defined.

Lemma sort_desc_sorted_id {A} (key : A -> str) l :
  StronglySorted (key_ge key) l -> sort_desc key l = l.
Proof.
  induction 1 as [|x l Hs IH Hx]; simpl; [reflexivity|].
  rewrite IH. destruct l as [|y l]; [reflexivity|]. simpl.
  inversion Hx as [|? ? Hxy _]; subst. unfold key_ge in Hxy. now rewrite Hxy.
Qed.

Lemma tracks_unique sn sn' l l' :
  tracks sn l -> tracks sn' l' -> l ≡ₚ l' ->
  existing_urls sn = existing_urls sn' /\ existing_dois sn = existing_dois sn'.
Proof.
  intros [Hu Hd] [Hu' Hd'] Hp. split; apply set_eq; intros z.
  - rewrite Hu, Hu'. split; intros (x & Hx & H); exists x; split; auto.
    + now rewrite <- Hp.
    + now rewrite Hp.
  - rewrite Hd, Hd'. split; intros (x & Hx & H); exists x; split; auto.
    + now rewrite <- Hp.
    + now rewrite Hp.
Qed.

Lemma fold_merge_skip l a :
  (forall item, In item l -> ~ has_url item \/ covered (tracked a) item) ->
  fold_left merge_step l a = a.
Proof.
  induction l as [|b l IH]; intros H; simpl; [reflexivity|].
  rewrite merge_step_skip by (apply H; now left).
  apply IH. intros item Hin. apply H. now right.
Qed.

(** A second pass over the same auto items adds nothing. *)
Lemma merge_loop_again manual auto :
  merge_loop (merge_news manual auto).1 auto
  = {| merged := (merge_news manual auto).1;
       tracked := seed (merge_news manual auto).1;
       new_count := 0 |}.
Proof.
  destruct (merge_loop_inv manual auto) as (kept & _ & [Hm Ht _ _]).
  set (out := (merge_news manual auto).1).
  assert (Hp : out ≡ₚ manual ++ kept).
  { unfold out, merge_news. simpl. now rewrite sort_desc_perm, Hm. }
  destruct (tracks_unique _ _ _ _ (seed_tracks out) Ht Hp) as [Eu Ed].
  unfold merge_loop. apply fold_merge_skip. intros item Hin. simpl.
  destruct (decide (get_url item = [])) as [E|E]; [left; now intros H|].
  right. pose proof (merge_loop_covers manual auto item Hin E) as [H|H].
  - left. now rewrite Eu.
  - right. now rewrite Ed.
Qed.

(** X11.  Merging is stable under repetition: merging the same auto
    items into the output of a merge gives that output again, and
    prints nothing. *)
Theorem merge_news_again (manual auto : list NewsItem) :
  merge_news (merge_news manual auto).1 auto = ((merge_news manual auto).1, []).
Proof.
  assert (Hs : StronglySorted (key_ge date_key) (merge_news manual auto).1)
    by apply sort_desc_sorted.
  unfold merge_news at 1. rewrite merge_loop_again. simpl.
  now rewrite sort_desc_sorted_id.
Qed.

(** X12.  The message line is printed exactly when auto items were
    added, and it reports how many: the difference in length between
    the output and the manual list. *)
Theorem merge_news_reports_count (manual auto : list NewsItem) :
  let n := (length (merge_news manual auto).1 - length manual)%nat in
  (length manual <= length (merge_news manual auto).1)%nat
  /\ (merge_news manual auto).2 = if (0 <? n)%nat then [found_line n] else [].
Proof.
  destruct (merge_loop_inv manual auto) as (kept & _ & [Hm _ _ Hc]).
  assert (Hl : length (merge_news manual auto).1 = (length manual + length kept)%nat).
  { unfold merge_news. simpl.
    now rewrite (Permutation_length (sort_desc_perm _ _)), Hm, length_app. }
  cbv zeta. rewrite Hl. split; [lia|].
  replace (length manual + length kept - length manual)%nat with (length kept) by lia.
  unfold merge_news. simpl. now rewrite Hc.
Qed.

(** ** More on the renderer and the patcher *)

Lemma contains_refl s : contains s s.
Proof. exists [], []. now rewrite app_nil_r. Qed.

Lemma contains_app_l a s t : contains a s -> contains a (s ++ t).
Proof. intros (p & q & ->). exists p, (q ++ t). now rewrite <- !app_assoc. Qed.

Lemma contains_app_r a s t : contains a t -> contains a (s ++ t).
Proof. intros (p & q & ->). exists (s ++ p), q. now rewrite <- !app_assoc. Qed.

Lemma contains_trans a b c : contains a b -> contains b c -> contains a c.
Proof.
  intros (p & q & ->) (p' & q' & ->). exists (p' ++ p), (q ++ q').
  now rewrite <- !app_assoc.
Qed.

Lemma join_contains sep l x : In x l -> contains x (join sep l).
Proof.
  induction l as [|y l IH]; [intros []|]. intros [<-|Hin].
  - destruct l; [apply contains_refl|]. rewrite join_cons.
    apply contains_app_l, contains_refl.
  - destruct l as [|z l]; [destruct Hin|]. rewrite join_cons.
    apply contains_app_r, contains_app_r. now apply IH.
Qed.

Lemma render_item_in items item :
  In item items -> contains (render_item item) (render_news_html items).
Proof.
  intros Hin. unfold render_news_html. cbv zeta. apply join_contains.
  apply in_or_app. right. apply in_or_app. left. now apply in_map.
Qed.

(** X14.  Every item is rendered: its date and its text occur in the
    fragment, and when it has a URL, so does the anchor to that URL
    with the item's link text, or the word here when it has none. *)
Theorem render_news_html_shows_item (items : list NewsItem) (item : NewsItem) :
  In item items ->
  contains (default [] (date item)) (render_news_html items)
  /\ contains (default [] (text item)) (render_news_html items)
  /\ forall u, url item = Some u -> u <> [] ->
       contains (anchor u (default (py "here") (link_text item)))
                (render_news_html items).
Proof.
  intros Hin. pose proof (render_item_in items item Hin) as Hc.
  split; [|split].
  - eapply contains_trans; [|exact Hc]. unfold render_item.
    destruct (truthy (url item));
      apply contains_app_r, contains_app_r, contains_app_r, contains_app_l,
            contains_refl.
  - eapply contains_trans; [|exact Hc]. unfold render_item.
    destruct (truthy (url item));
      do 5 apply contains_app_r; apply contains_app_l, contains_refl.
  - intros u Hu Hne. eapply contains_trans; [|exact Hc]. unfold render_item.
    rewrite Hu. destruct u as [|c u]; [now destruct Hne|]. cbn [truthy default].
    do 6 apply contains_app_r. apply contains_app_l.
    apply contains_refl.
Qed.

Lemma render_news_html_shows_item_witness :
  contains (anchor (py "https://x.org/new") (py "here"))
           (render_news_html [item_with_url "2023-06-01" "https://x.org/new"]).
Proof.
  refine (proj2 (proj2 (render_news_html_shows_item
                          [item_with_url "2023-06-01" "https://x.org/new"]
                          (item_with_url "2023-06-01" "https://x.org/new") _))
            (py "https://x.org/new") eq_refl _).
  - now left.
  - discriminate.
Defined.

Lemma search_leftmost r s m :
  Re.search r s = Some m ->
  exists p t, s = p ++ t /\ Re.match_at r t = Some m
              /\ forall p1 q, p = p1 ++ q -> q <> [] -> Re.match_at r (q ++ t) = None.
Proof.
  induction s as [|c s IH]; simpl.
  - destruct (Re.match_at r []) eqn:E; [|discriminate].
    intros [= <-]. exists [], []. repeat split; auto.
    intros p1 q H Hq. symmetry in H. apply app_eq_nil in H as [_ ->].
    now destruct Hq.
  - destruct (Re.match_at r (c :: s)) eqn:E.
    + intros [= <-]. exists [], (c :: s). repeat split; auto.
      intros p1 q H Hq. symmetry in H. apply app_eq_nil in H as [_ ->].
      now destruct Hq.
    + intros H. apply IH in H as (p & t & -> & Hm & Hp).
      exists (c :: p), t. repeat split; auto.
      intros [|d p1] q H Hq; simpl in H.
      * subst q. exact E.
      * injection H as -> ->. now apply (Hp p1).
Qed.

Lemma match_at_inv r s m :
  Re.match_at r s = Some m ->
  exists st, Re.match_items r Re.no_caps s = Some (st, Re.m_rest m).
Proof.
  unfold Re.match_at.
  destruct (Re.match_items r Re.no_caps s) as [[st rest]|]; [|discriminate].
  intros [= <-]. now exists st.
Qed.

Lemma marker_match_at_sound t m :
  Re.match_at marker_re t = Some m ->
  exists mid, t = MARKER_START ++ mid ++ MARKER_END ++ Re.m_rest m.
Proof.
  intros Hm. apply match_at_inv in Hm as (st & E).
  now apply marker_match_sound in E.
Qed.

Lemma marker_match_nonempty t m :
  Re.match_at marker_re t = Some m -> Re.m_text m <> [].
Proof.
  apply (script_patterns_nonempty marker_re t).
  right. right. right. right. now left.
Qed.

(** With a fragment free of backslashes, the leftmost span of a
    document that has one is replaced, and the scan goes on behind it. *)
Lemma re_sub_marker_span news_html content :
  has_backslash news_html = false -> has_span content ->
  exists p mid rest,
    content = p ++ MARKER_START ++ mid ++ MARKER_END ++ rest
    /\ re_sub marker_re news_html content
       = Ok (p ++ news_html ++ sub_literal marker_re news_html rest).
Proof.
  intros Hb Hs.
  destruct (Re.search marker_re content) as [m|] eqn:E;
    [|apply search_marker_None in E; contradiction].
  apply search_leftmost in E as (p & t & -> & Hm & Hp).
  destruct (marker_match_at_sound t m Hm) as (mid & Emid).
  exists p, mid, (Re.m_rest m). split; [now rewrite <- Emid|].
  rewrite re_sub_literal by exact Hb. f_equal. unfold sub_literal.
  apply (sub_first_match _ _ p t m Hp Hm).
  now apply marker_match_nonempty with t.
Qed.

Lemma has_backslash_app a b :
  has_backslash (a ++ b) = has_backslash a || has_backslash b.
Proof. apply existsb_app. Qed.

Lemma has_backslash_join sep l :
  has_backslash sep = false ->
  Forall (fun x => has_backslash x = false) l ->
  has_backslash (join sep l) = false.
Proof.
  intros Hs. induction 1 as [|x l Hx Hl IH]; [reflexivity|].
  destruct l as [|y l]; [exact Hx|].
  rewrite join_cons, !has_backslash_app, Hx, Hs, IH. reflexivity.
Qed.

Lemma render_item_plain item :
  plain_item item -> has_backslash (render_item item) = false.
Proof.
  intros (Hd & Ht & Hu & Hl). unfold render_item.
  destruct (truthy (url item)); rewrite !has_backslash_app, ?Hd, ?Ht, ?Hu, ?Hl;
    reflexivity.
Qed.

Lemma render_news_html_plain items :
  Forall plain_item items -> has_backslash (render_news_html items) = false.
Proof.
  intros H. unfold render_news_html. cbv zeta.
  apply has_backslash_join; [reflexivity|].
  apply Forall_app. split; [repeat constructor|].
  apply Forall_app. split; [|repeat constructor].
  apply Forall_map. eapply Forall_impl; [exact H|]. apply render_item_plain.
Qed.

(** X15.  The patcher never comes to rest on a rendered fragment: when
    no rendered field holds a backslash and the document has a span, it
    writes a document that differs from the old one and returns true.
    The new document contains the fragment and so has a span again:
    the next run rewrites it once more.  (The fragment starts with the
    indentation of its first line, which the span it replaces does not
    include.) *)
Theorem update_index_html_always_writes (items : list NewsItem) (w : world) :
  Forall plain_item items -> has_span (index_html w) ->
  exists new_content,
    update_index_html (render_news_html items) w
    = (Ok true, print (py "Updated index.html") (write_index new_content w))
    /\ new_content <> index_html w
    /\ contains (render_news_html items) new_content
    /\ has_span new_content.
Proof.
  intros Hp Hs.
  pose proof (render_news_html_plain items Hp) as Hb.
  destruct (re_sub_marker_span _ _ Hb Hs) as (p & mid & rest & Ec & Er).
  set (F := render_news_html items) in *.
  set (new_content := p ++ F ++ sub_literal marker_re F rest).
  assert (Hne : new_content <> index_html w).
  { rewrite Ec. unfold new_content. intros E. apply app_inv_head in E.
    destruct (render_news_html_shape items) as (body & Eb).
    fold F in Eb. rewrite Eb in E. discriminate E. }
  exists new_content. split; [|split; [exact Hne|split]].
  - unfold update_index_html.
    destruct (Re.search marker_re (index_html w)) eqn:E;
      [|apply search_marker_None in E; contradiction].
    rewrite Er. now rewrite bool_decide_eq_false_2.
  - apply contains_app_r, contains_app_l, contains_refl.
  - destruct (render_news_html_shape items) as (body & Eb). fold F in Eb.
    exists (p ++ py "                "),
           (["010"] ++ body ++ ["010"] ++ py "                "),
           (sub_literal marker_re F rest).
    unfold new_content. rewrite Eb. unfold first_line_html, last_line_html.
    change (py "                <!-- NEWS_START -->")
      with (py "                " ++ MARKER_START).
    change (py "                <!-- NEWS_END -->")
      with (py "                " ++ MARKER_END).
    now rewrite <- !app_assoc.
Qed.

Lemma update_index_html_always_writes_witness :
  exists new_content,
    update_index_html (render_news_html [nature_doi_item]) same_world
    = (Ok true, print (py "Updated index.html") (write_index new_content same_world))
    /\ new_content <> index_html same_world
    /\ contains (render_news_html [nature_doi_item]) new_content
    /\ has_span new_content.
Proof.
  apply update_index_html_always_writes.
  - repeat constructor.
  - exists (py "<p>"), (py "old"), (py "</p>"). reflexivity.
Defined.

(** ** Fetching *)

Lemma add_paper_cases papers p :
  (add_paper papers p = papers
   /\ (truthy (Paper.paperId p) = true ->
       default [] (Paper.paperId p) ∈ map fst papers))
  \/ (add_paper papers p = papers ++ [(default [] (Paper.paperId p), p)]
      /\ truthy (Paper.paperId p) = true
      /\ default [] (Paper.paperId p) ∉ map fst papers).
Proof.
  unfold add_paper. destruct (truthy (Paper.paperId p)) eqn:Et; simpl.
  - case_bool_decide as Hin; simpl; [left|right]; auto.
  - left. split; [reflexivity|discriminate].
Qed.

Lemma truthy_default (o : option str) :
  truthy o = true -> o = Some (default [] o) /\ default [] o <> [].
Proof. destruct o as [[|c s]|]; simpl; try discriminate. intros _. now split. Qed.

Lemma add_paper_ok papers p : dict_ok papers -> dict_ok (add_paper papers p).
Proof.
  intros [Hn Hf]. destruct (add_paper_cases papers p) as [[-> _]|(-> & Ht & Hin)];
    [now split|].
  apply truthy_default in Ht as [Hs Hne]. split.
  - rewrite map_app. simpl. apply NoDup_app. split; [exact Hn|]. split.
    + intros x Hx Hx'. apply list_elem_of_singleton in Hx'. now subst.
    + apply NoDup_singleton.
  - apply Forall_app. split; [exact Hf|]. repeat constructor; auto.
Qed.

Lemma add_paper_keeps papers p kp : In kp papers -> In kp (add_paper papers p).
Proof.
  intros H. destruct (add_paper_cases papers p) as [[-> _]|(-> & _)]; [exact H|].
  apply in_or_app. now left.
Qed.

Lemma add_paper_new papers p kp :
  In kp (add_paper papers p) -> In kp papers \/ kp.2 = p.
Proof.
  destruct (add_paper_cases papers p) as [[-> _]|(-> & _)]; [now left|].
  intros H. apply in_app_or in H as [H|[<-|[]]]; [now left|now right].
Qed.

Lemma add_paper_key papers p :
  truthy (Paper.paperId p) = true ->
  default [] (Paper.paperId p) ∈ map fst (add_paper papers p).
Proof.
  intros Ht. destruct (add_paper_cases papers p) as [[-> H]|(-> & _)]; [auto|].
  rewrite map_app. apply elem_of_app. right. now apply list_elem_of_singleton.
Qed.

Lemma fold_add_paper d papers :
  dict_ok papers ->
  dict_ok (fold_left add_paper d papers)
  /\ (forall kp, In kp papers -> In kp (fold_left add_paper d papers))
  /\ (forall kp, In kp (fold_left add_paper d papers) -> In kp papers \/ In kp.2 d)
  /\ (forall p, In p d -> truthy (Paper.paperId p) = true ->
                default [] (Paper.paperId p) ∈ map fst (fold_left add_paper d papers)).
Proof.
  revert papers. induction d as [|p d IH]; intros papers Hok; simpl.
  - repeat split; auto; try apply Hok. intros p [].
  - destruct (IH (add_paper papers p) (add_paper_ok _ p Hok)) as (H1 & H2 & H3 & H4).
    split; [exact H1|]. split; [|split].
    + intros kp Hin. now apply H2, add_paper_keeps.
    + intros kp Hin. apply H3 in Hin as [Hin|Hin]; [|auto].
      apply add_paper_new in Hin as [Hin| <-]; auto.
    + intros q [<-|Hq] Ht; [|now apply H4].
      pose proof (add_paper_key papers p Ht) as Hk.
      apply list_elem_of_In, in_map_iff in Hk as (kp & Ek & Hkp).
      apply H2 in Hkp. apply list_elem_of_In, in_map_iff. now exists kp.
Qed.

(** The loop, for any list of author IDs and without a crash. *)
Lemma fetch_loop_spec urlopen ids papers out :
  no_crash urlopen ids -> dict_ok papers ->
  exists papers',
    fetch_loop urlopen ids papers out = (Ok papers', out ++ warnings urlopen ids)
    /\ dict_ok papers'
    /\ (forall kp, In kp papers -> In kp papers')
    /\ (forall kp, In kp papers' -> In kp papers \/ served urlopen ids kp.2)
    /\ (forall p, served urlopen ids p -> truthy (Paper.paperId p) = true ->
                  default [] (Paper.paperId p) ∈ map fst papers').
Proof.
  revert papers out. induction ids as [|id ids IH]; intros papers out Hc Hok.
  - exists papers. simpl. rewrite app_nil_r.
    split; [reflexivity|]. split; [exact Hok|]. split; [auto|]. split; [auto|].
    intros p (id & d & [] & _).
  - assert (Hc' : no_crash urlopen ids) by (intros i Hi; apply Hc; now right).
    pose proof (Hc id (or_introl eq_refl)) as Hid. simpl.
    unfold warnings. simpl. fold (warnings urlopen ids).
    destruct (urlopen (papers_url id)) as [data|e|] eqn:Er; [| |now destruct Hid].
    + destruct (fold_add_paper (default [] data) papers Hok) as (H1 & H2 & H3 & H4).
      destruct (IH (fold_left add_paper (default [] data) papers) out Hc' H1)
        as (papers' & E & G1 & G2 & G3 & G4).
      exists papers'. split; [exact E|]. split; [exact G1|]. split; [|split].
      * intros kp Hin. now apply G2, H2.
      * intros kp Hin. apply G3 in Hin as [Hin|(i & d & Hi & Hd & Hp)].
        -- apply H3 in Hin as [Hin|Hin]; [now left|]. right.
           destruct data as [d|]; [|destruct Hin]. exists id, d.
           split; [now left|]. split; [exact Er|exact Hin].
        -- right. exists i, d. split; [now right|]. now split.
      * intros p (i & d & [<-|Hi] & Hd & Hp) Ht.
        -- rewrite Er in Hd. injection Hd as ->.
           pose proof (H4 p Hp Ht) as Hk.
           apply list_elem_of_In, in_map_iff in Hk as (kp & Ek & Hkp).
           apply G2 in Hkp. apply list_elem_of_In, in_map_iff. now exists kp.
        -- apply G4; [|exact Ht]. exists i, d. now repeat split.
    + destruct (IH papers (out ++ [fetch_warning id e]) Hc' Hok)
        as (papers' & E & G1 & G2 & G3 & G4).
      exists papers'. rewrite <- app_assoc in E. split; [exact E|].
      split; [exact G1|]. split; [exact G2|]. split.
      * intros kp Hin. apply G3 in Hin as [Hin|(i & d & Hi & Hd & Hp)]; [now left|].
        right. exists i, d. split; [now right|]. now split.
      * intros p (i & d & [<-|Hi] & Hd & Hp) Ht; [congruence|].
        apply G4; [|exact Ht]. exists i, d. now repeat split.
Qed.

Lemma dict_ok_nil : dict_ok [].
Proof. split; constructor. Qed.

(** X16.  When no request crashes, [fetch_papers] returns papers with
    pairwise distinct, non-empty identifiers, each taken from the answer
    for one of the authors, and every identified paper of every answer
    is represented by a paper with its identifier. *)
Theorem fetch_papers_dedup (urlopen : str -> response) :
  no_crash urlopen AUTHOR_IDS ->
  exists ps out,
    fetch_papers urlopen = (Ok ps, out)
    /\ NoDup (map Paper.paperId ps)
    /\ Forall (fun p => truthy (Paper.paperId p) = true) ps
    /\ (forall p, In p ps -> served urlopen AUTHOR_IDS p)
    /\ (forall p, served urlopen AUTHOR_IDS p ->
                  truthy (Paper.paperId p) = true ->
                  exists p', In p' ps /\ Paper.paperId p' = Paper.paperId p).
Proof.
  intros Hc.
  destruct (fetch_loop_spec urlopen AUTHOR_IDS [] [] Hc dict_ok_nil)
    as (papers & E & [Hn Hf] & _ & G3 & G4).
  exists (map snd papers), ([] ++ warnings urlopen AUTHOR_IDS).
  unfold fetch_papers. rewrite E. split; [reflexivity|].
  assert (Hid : map Paper.paperId (map snd papers) = map Some (map fst papers)).
  { rewrite !map_map. apply map_ext_in. intros kp Hkp.
    apply List.Forall_forall with (x := kp) in Hf; [|exact Hkp]. apply Hf. }
  split; [|split; [|split]].
  - rewrite Hid. apply NoDup_fmap_2; [|exact Hn]. intros a b [=]. assumption.
  - apply Forall_map. eapply Forall_impl; [exact Hf|].
    intros [k p] [Hk Hne]. simpl in *. rewrite Hk.
    destruct k; [now destruct Hne|reflexivity].
  - intros p Hp. apply in_map_iff in Hp as (kp & <- & Hkp).
    apply G3 in Hkp as [[]|H]. exact H.
  - intros p Hs Ht. pose proof (G4 p Hs Ht) as Hk.
    apply list_elem_of_In, in_map_iff in Hk as ([k p'] & Ek & Hkp). simpl in Ek.
    exists p'. split; [apply in_map_iff; now exists (k, p')|].
    apply List.Forall_forall with (x := (k, p')) in Hf; [|exact Hkp].
    destruct Hf as [Hk' _]. simpl in Hk'. rewrite Hk', Ek.
    symmetry. now apply truthy_default.
Qed.

Lemma fetch_loop_crash urlopen ids papers out :
  (exists id, In id ids /\ urlopen (papers_url id) = OtherError) ->
  (fetch_loop urlopen ids papers out).1 = Raise.
Proof.
  revert papers out. induction ids as [|id ids IH]; intros papers out (i & Hi & E).
  - destruct Hi.
  - simpl. destruct (urlopen (papers_url id)) eqn:Er; [| |reflexivity];
      (destruct Hi as [<-|Hi]; [congruence|apply IH; eauto]).
Qed.

Lemma fetch_papers_ok urlopen :
  no_crash urlopen AUTHOR_IDS ->
  exists ps, fetch_papers urlopen = (Ok ps, warnings urlopen AUTHOR_IDS).
Proof.
  intros Hc.
  destruct (fetch_loop_spec urlopen AUTHOR_IDS [] [] Hc dict_ok_nil)
    as (papers & E & _).
  exists (map snd papers). unfold fetch_papers. now rewrite E.
Qed.

Lemma fetch_papers_crash urlopen :
  (exists id, In id AUTHOR_IDS /\ urlopen (papers_url id) = OtherError) ->
  (fetch_papers urlopen).1 = Raise.
Proof.
  intros H. pose proof (fetch_loop_crash urlopen AUTHOR_IDS [] [] H) as E.
  unfold fetch_papers.
  destruct (fetch_loop urlopen AUTHOR_IDS [] []) as [[papers|] out];
    [discriminate E|reflexivity].
Qed.

(** X17.  A request that fails with [URLError] costs one warning line
    and nothing else: without a crash the function returns, and prints
    the warnings of the failed authors in order.  Any other exception
    in a request escapes. *)
Theorem fetch_papers_errors (urlopen : str -> response) :
  (no_crash urlopen AUTHOR_IDS ->
   exists ps, fetch_papers urlopen = (Ok ps, warnings urlopen AUTHOR_IDS))
  /\ ((exists id, In id AUTHOR_IDS /\ urlopen (papers_url id) = OtherError) ->
      (fetch_papers urlopen).1 = Raise).
Proof.
  split; [apply fetch_papers_ok|apply fetch_papers_crash].
Qed.

Lemma fetch_papers_errors_witness :
  exists ps, fetch_papers all_down = (Ok ps, warnings all_down AUTHOR_IDS).
Proof.
  apply (proj1 (fetch_papers_errors all_down)).
  intros id _. discriminate.
Defined.

Lemma fetch_papers_dedup_witness :
  exists ps out,
    fetch_papers one_author = (Ok ps, out)
    /\ NoDup (map Paper.paperId ps)
    /\ Forall (fun p => truthy (Paper.paperId p) = true) ps
    /\ (forall p, In p ps -> served one_author AUTHOR_IDS p)
    /\ (forall p, served one_author AUTHOR_IDS p ->
                  truthy (Paper.paperId p) = true ->
                  exists p', In p' ps /\ Paper.paperId p' = Paper.paperId p).
Proof.
  apply fetch_papers_dedup. intros id _. unfold one_author.
  case_bool_decide; discriminate.
Defined.

(** ** The main program *)

Lemma say_files line m :
  news_json (say line m) = news_json m
  /\ index_html (site (say line m)) = index_html (site m).
Proof. now split. Qed.

Lemma say_all_files ls m :
  news_json (say_all ls m) = news_json m
  /\ index_html (site (say_all ls m)) = index_html (site m).
Proof.
  unfold say_all. revert m. induction ls as [|l ls IH]; intros m; simpl; [now split|].
  destruct (IH (say l m)) as [-> ->]. now split.
Qed.

Lemma say_last line m : last (stdout (site (say line m))) = Some line.
Proof. simpl. apply last_snoc. Qed.

(** The files kept by a sequence of prints. *)
Ltac keep_files :=
  repeat first
    [ rewrite (proj1 (say_files _ _)) | rewrite (proj2 (say_files _ _))
    | rewrite (proj1 (say_all_files _ _)) | rewrite (proj2 (say_all_files _ _)) ].

(** The mapping loop of [main] ends normally exactly when no paper has
    a [null] title. *)
Lemma auto_items_of_ok ps :
  Forall (fun p => ~ null_title p) ps -> exists items, auto_items_of ps = Ok items.
Proof.
  induction 1 as [|p ps Hp _ (items & IH)]; simpl; [now exists []|].
  destruct (paper_to_news_item p) as [item|] eqn:E.
  - rewrite IH. eauto.
  - now apply (proj1 (paper_to_news_item_spec p)) in E.
Qed.

Lemma auto_items_of_raise ps :
  Exists null_title ps -> auto_items_of ps = Raise.
Proof.
  induction 1 as [p ps Hp|p ps _ IH]; simpl.
  - now rewrite (proj2 (proj1 (paper_to_news_item_spec p)) Hp).
  - rewrite IH. now destruct (paper_to_news_item p).
Qed.

Lemma fetch_papers_served urlopen ps out :
  no_crash urlopen AUTHOR_IDS -> fetch_papers urlopen = (Ok ps, out) ->
  forall p, In p ps -> served urlopen AUTHOR_IDS p.
Proof.
  intros Hc Ef p Hp.
  destruct (fetch_loop_spec urlopen AUTHOR_IDS [] [] Hc dict_ok_nil)
    as (papers & E & _ & _ & G3 & _).
  unfold fetch_papers in Ef. rewrite E in Ef. injection Ef as <- _.
  apply in_map_iff in Hp as (kp & <- & Hkp).
  apply G3 in Hkp as [[]|H]. exact H.
Qed.

(** Without a crash and without a [null] title in the answers, the
    papers are fetched and mapped. *)
Lemma fetch_and_map urlopen :
  no_crash urlopen AUTHOR_IDS -> no_null_title urlopen AUTHOR_IDS ->
  exists ps items,
    fetch_papers urlopen = (Ok ps, warnings urlopen AUTHOR_IDS)
    /\ auto_items_of ps = Ok items.
Proof.
  intros Hc Ht. destruct (fetch_papers_ok urlopen Hc) as (ps & Ef).
  destruct (auto_items_of_ok ps) as (items & Ea).
  { apply List.Forall_forall. intros p Hp. apply Ht.
    exact (fetch_papers_served urlopen ps _ Hc Ef p Hp). }
  now exists ps, items.
Qed.

(** A [null] title among the fetched papers stops the program before it
    writes. *)
Lemma main_null_title path argv urlopen m ps out :
  fetch_papers urlopen = (Ok ps, out) -> Exists null_title ps ->
  (main path argv urlopen m).1 = Raise
  /\ news_json (main path argv urlopen m).2 = news_json m
  /\ index_html (site (main path argv urlopen m).2) = index_html (site m).
Proof.
  intros Ef Hn. unfold main. rewrite Ef, (auto_items_of_raise ps Hn).
  cbn [fst snd]. split; [reflexivity|]. split; now keep_files.
Qed.

(** On the network [null_author] the program stops with the exception
    and the stored list is as it was. *)
Lemma main_null_title_sample :
  (main script_path plain_argv null_author stored_machine).1 = Raise
  /\ news_json (main script_path plain_argv null_author stored_machine).2
     = Some [talk_item].
Proof.
  destruct (main_null_title script_path plain_argv null_author stored_machine
              [doi_paper; null_title_paper]
              (warnings null_author AUTHOR_IDS)) as (E1 & E2 & _).
  - vm_compute. reflexivity.
  - right. left. reflexivity.
  - split; [exact E1|exact E2].
Qed.

(** X18.  A dry run writes nothing: with --dry-run among the arguments,
    neither data/news.json nor index.html is changed, whatever the
    network answers; when no request crashes and no paper in an answer
    has a null title, the run ends normally and the last thing printed
    is the fragment rendered from the merge of the stored list with the
    items of the fetched papers. *)
Theorem main_dry_run (path : str) (argv : list str)
    (urlopen : str -> response) (m : machine) :
  py "--dry-run" ∈ argv ->
  news_json (main path argv urlopen m).2 = news_json m
  /\ index_html (site (main path argv urlopen m).2) = index_html (site m)
  /\ (no_crash urlopen AUTHOR_IDS -> no_null_title urlopen AUTHOR_IDS ->
      exists ps out items,
        fetch_papers urlopen = (Ok ps, out)
        /\ auto_items_of ps = Ok items
        /\ (main path argv urlopen m).1 = Ok tt
        /\ last (stdout (site (main path argv urlopen m).2))
           = Some (render_news_html (merge_news (load_news m) items).1)).
Proof.
  intros Hd. unfold main. rewrite (bool_decide_eq_true_2 _ Hd).
  destruct (fetch_papers urlopen) as [[ps|] out] eqn:Ef.
  - destruct (auto_items_of ps) as [items|] eqn:Ea.
    + destruct (merge_news _ _) as [merged lines] eqn:Em. cbn [snd fst].
      split; [now keep_files|]. split; [now keep_files|].
      intros _ _. exists ps, out, items.
      split; [reflexivity|]. split; [exact Ea|]. split; [reflexivity|].
      rewrite say_last. unfold load_news in *. cbn [news_json say] in Em.
      now rewrite Em.
    + cbn [snd fst]. split; [now keep_files|]. split; [now keep_files|].
      intros Hc Ht. destruct (fetch_and_map urlopen Hc Ht) as (ps' & items & E & Ea').
      congruence.
  - cbn [snd fst]. split; [now keep_files|]. split; [now keep_files|].
    intros Hc _. destruct (fetch_papers_ok urlopen Hc) as (ps & E).
    congruence.
Qed.

(** After a run that is not dry, whose requests succeed or fail with
    [URLError] and whose papers are mapped, data/news.json holds the
    merged list. *)
Lemma main_saves path argv urlopen m ps out items :
  py "--dry-run" ∉ argv ->
  fetch_papers urlopen = (Ok ps, out) -> auto_items_of ps = Ok items ->
  news_json (main path argv urlopen m).2
  = Some (merge_news (load_news m) items).1.
Proof.
  intros Hd Ef Ea. unfold main. rewrite (bool_decide_eq_false_2 _ Hd), Ef, Ea.
  unfold load_news. cbn [news_json say].
  destruct (merge_news _ _) as [merged lines]. cbn [fst].
  destruct (update_index_html _ _) as [[changed|] w]; cbn [snd]; now keep_files.
Qed.

Lemma merge_news_again_fst manual auto :
  (merge_news (merge_news manual auto).1 auto).1 = (merge_news manual auto).1.
Proof.
  assert (Hs : StronglySorted (key_ge date_key) (merge_news manual auto).1)
    by apply sort_desc_sorted.
  unfold merge_news at 1. rewrite merge_loop_again. cbn [fst merged].
  now apply sort_desc_sorted_id.
Qed.

(** X19.  A run that is not dry, meets no crash and finds no null title
    in the answers stores the merge of the stored list with the items
    of the fetched papers; a second run on the same answers stores the
    same list again. *)
Theorem main_saves_merge_once (path : str) (argv : list str)
    (urlopen : str -> response) (m : machine) :
  py "--dry-run" ∉ argv ->
  no_crash urlopen AUTHOR_IDS -> no_null_title urlopen AUTHOR_IDS ->
  exists ps out items,
    fetch_papers urlopen = (Ok ps, out)
    /\ auto_items_of ps = Ok items
    /\ news_json (main path argv urlopen m).2
       = Some (merge_news (load_news m) items).1
    /\ news_json (main path argv urlopen (main path argv urlopen m).2).2
       = news_json (main path argv urlopen m).2.
Proof.
  intros Hd Hc Ht. destruct (fetch_and_map urlopen Hc Ht) as (ps & items & Ef & Ea).
  exists ps, (warnings urlopen AUTHOR_IDS), items.
  split; [exact Ef|]. split; [exact Ea|].
  pose proof (main_saves path argv urlopen m ps _ items Hd Ef Ea) as E1.
  split; [exact E1|].
  rewrite (main_saves path argv urlopen _ ps _ items Hd Ef Ea), E1. f_equal.
  assert (El : load_news (main path argv urlopen m).2
               = (merge_news (load_news m) items).1)
    by (unfold load_news at 1; now rewrite E1).
  rewrite El. apply merge_news_again_fst.
Qed.

Lemma doi_author_no_crash : no_crash doi_author AUTHOR_IDS.
Proof. intros id _. unfold doi_author. case_bool_decide; discriminate. Qed.

Lemma doi_author_no_null_title : no_null_title doi_author AUTHOR_IDS.
Proof.
  intros p (id & d & _ & E & Hp). unfold doi_author in E.
  case_bool_decide; [|discriminate E]. injection E as <-.
  destruct Hp as [<-|[<-|[]]]; discriminate.
Qed.

Lemma plain_argv_not_dry : py "--dry-run" ∉ plain_argv.
Proof. intros H. apply list_elem_of_singleton in H. discriminate H. Qed.

Lemma dry_argv_dry : py "--dry-run" ∈ dry_argv.
Proof. apply elem_of_cons. right. now apply list_elem_of_singleton. Qed.

(** On the network [doi_author] and one stored entry, the first run
    stores the paper's item before the stored entry, and the second run
    stores the same two entries. *)
Lemma main_saves_merge_once_witness :
  news_json (main script_path plain_argv doi_author stored_machine).2
  = Some [doi_paper_item; talk_item]
  /\ news_json (main script_path plain_argv doi_author
                  (main script_path plain_argv doi_author stored_machine).2).2
     = Some [doi_paper_item; talk_item].
Proof.
  destruct (main_saves_merge_once script_path plain_argv doi_author stored_machine
              plain_argv_not_dry doi_author_no_crash doi_author_no_null_title)
    as (ps & out & items & _ & _ & _ & E2).
  split; [|rewrite E2]; vm_compute; reflexivity.
Defined.

(** X20.  When a request crashes, the program stops with the exception
    before it writes: data/news.json and index.html are as they were. *)
Theorem main_crash_writes_nothing (path : str) (argv : list str)
    (urlopen : str -> response) (m : machine) :
  (exists id, In id AUTHOR_IDS /\ urlopen (papers_url id) = OtherError) ->
  (main path argv urlopen m).1 = Raise
  /\ news_json (main path argv urlopen m).2 = news_json m
  /\ index_html (site (main path argv urlopen m).2) = index_html (site m).
Proof.
  intros H. pose proof (fetch_papers_crash urlopen H) as E.
  unfold main. destruct (fetch_papers urlopen) as [[ps|] out]; [discriminate E|].
  cbn [fst snd]. split; [reflexivity|]. split; now keep_files.
Qed.

Lemma main_crash_writes_nothing_witness :
  (main (py "data/news.json") [] crashing
     {| news_json := None; site := same_world |}).1 = Raise.
Proof.
  apply (main_crash_writes_nothing (py "data/news.json") [] crashing).
  exists (py "2275825472"). split; [now left|reflexivity].
Defined.

(** A dry run on the network [doi_author] and one stored entry: the
    files are kept, the run ends normally, and the fragment printed last
    shows the paper's item and the stored entry. *)
Lemma main_dry_run_witness :
  news_json (main script_path dry_argv doi_author stored_machine).2
  = Some [talk_item]
  /\ index_html (site (main script_path dry_argv doi_author stored_machine).2)
     = index_html same_world
  /\ (main script_path dry_argv doi_author stored_machine).1 = Ok tt
  /\ last (stdout (site (main script_path dry_argv doi_author stored_machine).2))
     = Some (render_news_html [doi_paper_item; talk_item]).
Proof.
  destruct (main_dry_run script_path dry_argv doi_author stored_machine dry_argv_dry)
    as (E1 & E2 & H).
  destruct (H doi_author_no_crash doi_author_no_null_title)
    as (ps & out & items & Ef & Ea & E3 & E4).
  split; [exact E1|]. split; [exact E2|]. split; [exact E3|].
  rewrite E4. f_equal. f_equal.
  assert (Ei : Ok items = Ok [doi_paper_item]).
  { rewrite <- Ea. vm_compute in Ef. injection Ef as <- _. reflexivity. }
  injection Ei as ->. vm_compute. reflexivity.
Defined.

(** ** From a fetched paper to the merge *)

Lemma paper_to_news_item_doi_url p a ext d :
  paper_to_news_item p = Ok (Some a) ->
  Paper.externalIds p = Some ext -> Paper.DOI ext = Some d -> d <> [] ->
  url a = Some (py "https://doi.org/" ++ d).
Proof.
  intros Ha He Hd Hne. unfold paper_to_news_item in Ha. cbv zeta in Ha.
  destruct (default (Some []) (Paper.title p)) as [t|]; [|discriminate].
  destruct (negb (truthy (Some (strip t)))); [discriminate|].
  destruct (if truthy (Paper.publicationDate p) then _ else _); [|discriminate].
  rewrite He in Ha. cbn [default] in Ha. unfold id in Ha. rewrite Hd in Ha.
  destruct d as [|c d]; [now destruct Hne|]. cbn [truthy default] in Ha.
  now injection Ha as <-.
Qed.

(** X13.  A fetched paper whose DOI is already carried by a manual
    entry is not added: its item links the DOI, and merging that item
    into the manual list returns the manual list, sorted, and prints
    nothing. *)
Theorem merge_news_skips_known_doi
    (manual : list NewsItem) (m : NewsItem) (p : Paper.t) (a : NewsItem)
    (ext : Paper.ExternalIds) (d : str) :
  paper_to_news_item p = Ok (Some a) ->
  Paper.externalIds p = Some ext -> Paper.DOI ext = Some d -> doi_shaped d ->
  In m manual -> normalize_doi d ∈ dois_of m ->
  url a = Some (py "https://doi.org/" ++ d)
  /\ merge_news manual [a] = (sort_desc date_key manual, []).
Proof.
  intros Ha He Hd Hs Hm Hin.
  assert (Hne : d <> []) by (destruct Hs as (ds & s & -> & _); discriminate).
  pose proof (paper_to_news_item_doi_url p a ext d Ha He Hd Hne) as Hu.
  split; [exact Hu|].
  assert (Hg : get_url a = py "https://doi.org/" ++ d) by now apply get_url_Some.
  assert (Hda : normalize_doi d ∈ dois_of a).
  { unfold dois_of. rewrite Hg.
    apply extract_dois_in; [discriminate|]. left.
    exists {| Re.m_text := d; Re.m_group1 := Some d; Re.m_rest := [] |}.
    split; [|now left].
    now apply (finditer_doi (py "https://doi.org/")). }
  assert (Hsk : merge_loop manual [a]
                = {| merged := manual; tracked := seed manual; new_count := 0 |}).
  { unfold merge_loop. cbn [fold_left]. apply merge_step_skip. right. right.
    cbn [tracked]. intros Hdis. apply (Hdis (normalize_doi d) Hda).
    apply (proj2 (seed_tracks manual)). exists m.
    split; [now apply list_elem_of_In|exact Hin]. }
  unfold merge_news. now rewrite Hsk.
Qed.

Lemma merge_news_skips_known_doi_witness :
  merge_news [item_with_url "2024-05-01"
                "https://academic.oup.com/pnasnexus/article/3/9/10.1093/pnasnexus/pgae323/7731083"]
    [{| date := Some (py "2024-09-01");
        text := Some (py "Our paper " ++ [dquote] ++ py "A title" ++ [dquote]
                      ++ py " is available");
        url := Some (py "https://doi.org/" ++ py "10.1093/pnasnexus/pgae323");
        link_text := None;
        source := Some (py "semantic_scholar");
        paper_id := Some (py "p1") |}]
  = (sort_desc date_key
       [item_with_url "2024-05-01"
          "https://academic.oup.com/pnasnexus/article/3/9/10.1093/pnasnexus/pgae323/7731083"],
     []).
Proof.
  refine (proj2 (merge_news_skips_known_doi
                   [item_with_url "2024-05-01"
                      "https://academic.oup.com/pnasnexus/article/3/9/10.1093/pnasnexus/pgae323/7731083"]
                   (item_with_url "2024-05-01"
                      "https://academic.oup.com/pnasnexus/article/3/9/10.1093/pnasnexus/pgae323/7731083")
                   doi_paper _
                   {| Paper.DOI := Some (py "10.1093/pnasnexus/pgae323");
                      Paper.ArXiv := None |}
                   (py "10.1093/pnasnexus/pgae323")
                   eq_refl eq_refl eq_refl doi_shaped_sample _ _)).
  - now left.
  - apply (bool_decide_unpack _). vm_compute. exact I.
Defined.
